(** * trgtools: the trigger-candidate reader [TCReader]

    A shallow embedding of [python/trgtools/TCReader.py] and the properties
    of its fragment scan.

    The reader walks a fragment (a byte buffer) record by record.  Each
    record is overlaid by the [trgdataformats] bindings, which report the
    candidate header, the number of activities, the activities themselves
    and the size of the whole record; the reader copies them into two
    parallel sequences, [tc_data] and [ta_data].

    Python integers are unbounded: byte offsets and sizes are [nat], the
    unsigned fields of the records are [N], the signed channels are [Z].
    Console output (the [_verbosity] branches) is not part of the state. *)

From Stdlib Require Import ZArith NArith.
From Stdlib.Strings Require Import Byte Ascii String.
From Stdlib Require Import DecimalString DecimalPos DecimalZ.
From stdpp Require Import base list strings.

Open Scope nat_scope.

(** ** The collaborators the reader is written against *)

Module daqdataformats.

(** Modelled from the spec: the fragment source (section 6), which is not
    among the sources.  A fragment exposes its byte length and a view of
    its bytes from an offset to the end. *)
Definition Fragment : Type := list byte.

Definition get_data_size (fragment : Fragment) : nat := length fragment.

Definition get_data (fragment : Fragment) (offset : nat) : list byte :=
  drop offset fragment.

End daqdataformats.

Module trgdataformats.

(** What the bindings expose of one activity. *)
Record TriggerActivityData : Type := mkTriggerActivityData {
  adc_integral : N;
  adc_peak : N;
  algorithm : N;
  channel_end : Z;
  channel_peak : Z;
  channel_start : Z;
  detid : N;
  time_activity : N;
  time_end : N;
  time_peak : N;
  time_start : N;
  type : N;
  version : N
}.

(** The [data] attribute of a candidate. *)
Record TriggerCandidateData : Type := mkTriggerCandidateData {
  tcd_algorithm : N;
  tcd_detid : N;
  tcd_time_candidate : N;
  tcd_time_end : N;
  tcd_time_start : N;
  tcd_type : N;
  tcd_version : N
}.

(** A candidate object as [read_fragment] uses it: the attribute [data],
    the methods [n_inputs()] and [sizeof()], and the activities that
    iterating over the object yields.  The reader asks for the count and
    for the activities separately, so they are separate components. *)
Record TriggerCandidate : Type := mkTriggerCandidate {
  data : TriggerCandidateData;
  n_inputs : N;
  sizeof : nat;
  inputs : list TriggerActivityData
}.

End trgdataformats.

Import daqdataformats.

(** The opened HDF5 file: [get_frag] maps a fragment path to its fragment. *)
Definition HDF5RawDataFile : Type := string → Fragment.

Definition get_frag (h5_file : HDF5RawDataFile) (fragment_path : string) : Fragment :=
  h5_file fragment_path.

(** ** The NumPy side *)

(** A row of dtype [tc_dt]. *)
Record tc_dt : Type := mk_tc_dt {
  tc_algorithm : N;
  tc_detid : N;
  num_tas : N;
  tc_time_candidate : N;
  tc_time_end : N;
  tc_time_start : N;
  tc_type : N;
  tc_version : N
}.

(** A row of dtype [ta_dt]. *)
Record ta_dt : Type := mk_ta_dt {
  ta_adc_integral : N;
  ta_adc_peak : N;
  ta_algorithm : N;
  ta_channel_end : Z;
  ta_channel_peak : Z;
  ta_channel_start : Z;
  ta_detid : N;
  ta_time_activity : N;
  ta_time_end : N;
  ta_time_peak : N;
  ta_time_start : N;
  ta_type : N;
  ta_version : N
}.

(** [np.uint16(x)]: the value on sixteen bits. *)
Definition np_uint16 (x : N) : N := (x mod 65536)%N.

(** A row of [np.zeros(_, dtype=ta_dt)]. *)
Definition ta_zero : ta_dt := mk_ta_dt 0 0 0 0 0 0 0 0 0 0 0 0 0.

(** [np.zeros(n, dtype=ta_dt)], when NumPy obtains the array (the calls it
    refuses are the matter of [FiniteMemory] below). *)
Definition np_zeros (n : N) : list ta_dt := replicate (N.to_nat n) ta_zero.

(** The exceptions [read_fragment] can raise by itself. *)
Inductive exn : Type :=
| IndexError          (* a store past the end of a NumPy array *)
| UnboundLocalError   (* [np_tc_datum] read before the loop assigned it *)
| ValueError          (* [np.zeros]: the size is more than an array can have *)
| MemoryError.        (* [np.zeros]: the memory is not to be had *)

(** ** The reader state *)

(** Modelled from the spec: the base class [HDF5Reader], which is not among
    the sources.  It holds the opened file, the verbosity level and the
    diagnostic counter of empty fragments (section 4.4), which starts at
    zero. *)
Record HDF5Reader : Type := mkHDF5Reader {
  _h5_file : HDF5RawDataFile;
  _verbosity : Z;
  _num_empty : nat
}.

Definition HDF5Reader_init (h5_file : HDF5RawDataFile) (verbosity : Z) : HDF5Reader :=
  {| _h5_file := h5_file; _verbosity := verbosity; _num_empty := 0 |}.

Record TCReader : Type := mkTCReader {
  super : HDF5Reader;
  tc_data : list tc_dt;
  ta_data : list (list ta_dt)
}.

Definition set_tc_data (self : TCReader) (v : list tc_dt) : TCReader :=
  {| super := super self; tc_data := v; ta_data := ta_data self |}.

Definition set_ta_data (self : TCReader) (v : list (list ta_dt)) : TCReader :=
  {| super := super self; tc_data := tc_data self; ta_data := v |}.

Definition incr_num_empty (self : TCReader) : TCReader :=
  {| super := {| _h5_file := _h5_file (super self);
                 _verbosity := _verbosity (super self);
                 _num_empty := _num_empty (super self) + 1 |};
     tc_data := tc_data self;
     ta_data := ta_data self |}.

(** How a call ends: it returns a value, it raises, or (in the model only)
    the loop has not finished within the given number of iterations.  A call
    that raises leaves the reader as it was at the raise. *)
Inductive outcome (A : Type) : Type :=
| Return (self : TCReader) (value : A)
| Raise (self : TCReader) (e : exn)
| OutOfFuel.

Arguments Return {A} self value.
Arguments Raise {A} self e.
Arguments OutOfFuel {A}.

(** [TCReader.__init__]; the file name is resolved by the base class, so the
    opened file stands for it. *)
Definition __init__ (h5_file : HDF5RawDataFile) (verbosity : Z) : TCReader :=
  {| super := HDF5Reader_init h5_file verbosity; tc_data := []; ta_data := [] |}.

(** [TCReader.__len__]. *)
Definition __len__ (self : TCReader) : nat := length (tc_data self).

(** [TCReader.clear_data]. *)
Definition clear_data (self : TCReader) : TCReader :=
  set_ta_data (set_tc_data self []) [].

(** The row built from one activity (lines 147-161). *)
Definition np_ta_datum (ta : trgdataformats.TriggerActivityData) : ta_dt :=
  {| ta_adc_integral := trgdataformats.adc_integral ta;
     ta_adc_peak := trgdataformats.adc_peak ta;
     ta_algorithm := trgdataformats.algorithm ta;
     ta_channel_end := trgdataformats.channel_end ta;
     ta_channel_peak := trgdataformats.channel_peak ta;
     ta_channel_start := trgdataformats.channel_start ta;
     ta_detid := np_uint16 (trgdataformats.detid ta);
     ta_time_activity := trgdataformats.time_activity ta;
     ta_time_end := trgdataformats.time_end ta;
     ta_time_peak := trgdataformats.time_peak ta;
     ta_time_start := trgdataformats.time_start ta;
     ta_type := trgdataformats.type ta;
     ta_version := trgdataformats.version ta |}.

(** The row built from the candidate header (lines 127-136). *)
Definition np_tc_datum_of (tc_datum : trgdataformats.TriggerCandidate) : tc_dt :=
  let d := trgdataformats.data tc_datum in
  {| tc_algorithm := trgdataformats.tcd_algorithm d;
     tc_detid := trgdataformats.tcd_detid d;
     num_tas := trgdataformats.n_inputs tc_datum;
     tc_time_candidate := trgdataformats.tcd_time_candidate d;
     tc_time_end := trgdataformats.tcd_time_end d;
     tc_time_start := trgdataformats.tcd_time_start d;
     tc_type := trgdataformats.tcd_type d;
     tc_version := trgdataformats.tcd_version d |}.

(** The loop [for ta_idx, ta in enumerate(tc_datum): np_ta_data[ta_idx] = ...]
    (lines 146-161).  A store at an index the array does not have raises. *)
Fixpoint store_tas (np_ta_data : list ta_dt) (ta_idx : nat)
    (tas : list trgdataformats.TriggerActivityData) : exn + list ta_dt :=
  match tas with
  | [] => inr np_ta_data
  | ta :: tas' =>
      if ta_idx <? length np_ta_data
      then store_tas (<[ta_idx := np_ta_datum ta]> np_ta_data) (S ta_idx) tas'
      else inl IndexError
  end.

(** How one pass through the body of the [while] loop ends. *)
Inductive body_end : Type :=
| Next (self : TCReader) (byte_idx : nat) (np_tc_datum : tc_dt)
| Abort (self : TCReader) (e : exn).

Section Reader.

(** The constructor [trgdataformats.TriggerCandidate(...)] applied to the
    view that [fragment.get_data(byte_idx)] designates.  It belongs to the
    bindings, not to this repository: the results below hold for every
    such function. *)
Variable new_TriggerCandidate : list byte → trgdataformats.TriggerCandidate.

(** The body of the [while] loop (lines 126-162). *)
Definition scan_body (fragment : Fragment) (self : TCReader) (byte_idx : nat) : body_end :=
  let tc_datum := new_TriggerCandidate (get_data fragment byte_idx) in
  let np_tc_datum := np_tc_datum_of tc_datum in
  let self := set_tc_data self (tc_data self ++ [np_tc_datum]) in
  let byte_idx := byte_idx + trgdataformats.sizeof tc_datum in
  let np_ta_data := np_zeros (num_tas np_tc_datum) in
  match store_tas np_ta_data 0 (trgdataformats.inputs tc_datum) with
  | inl e => Abort self e
  | inr np_ta_data =>
      Next (set_ta_data self (ta_data self ++ [np_ta_data])) byte_idx np_tc_datum
  end.

(** The [while byte_idx < fragment_data_size] loop (lines 119-162).  The
    value carries the final [byte_idx] and [np_tc_datum], unassigned
    ([None]) as long as the body has not run. *)
Fixpoint scan (fuel : nat) (fragment : Fragment) (self : TCReader)
    (byte_idx : nat) (np_tc_datum : option tc_dt) : outcome (nat * option tc_dt) :=
  if byte_idx <? get_data_size fragment then
    match fuel with
    | 0 => OutOfFuel
    | S fuel' =>
        match scan_body fragment self byte_idx with
        | Next self' byte_idx' np_tc_datum' =>
            scan fuel' fragment self' byte_idx' (Some np_tc_datum')
        | Abort self' e => Raise self' e
        end
    end
  else Return self (byte_idx, np_tc_datum).

(** [TCReader.read_fragment] (lines 92-167).  The returned array is a list
    of rows. *)
Definition read_fragment (fuel : nat) (self : TCReader) (fragment_path : string)
    : outcome (list tc_dt) :=
  let fragment := get_frag (_h5_file (super self)) fragment_path in
  let fragment_data_size := get_data_size fragment in
  if fragment_data_size =? 0 then
    Return (incr_num_empty self) []
  else
    match scan fuel fragment self 0 None with
    | Return self' (_, Some np_tc_datum) => Return self' [np_tc_datum]
    | Return self' (_, None) => Raise self' UnboundLocalError
    | Raise self' e => Raise self' e
    | OutOfFuel => OutOfFuel
    end.

End Reader.

(** ** Notions the properties are stated with *)

(** How a scan ends, seen apart from the reader it fills. *)
Inductive scan_end : Type :=
| Done (byte_idx : nat)
| Failed (e : exn)
| Unfinished.

(** [self] with candidates and activity groups appended. *)
Definition extend (self : TCReader) (tcs : list tc_dt) (tas : list (list ta_dt)) : TCReader :=
  {| super := super self; tc_data := tc_data self ++ tcs; ta_data := ta_data self ++ tas |}.

(** The alignment of the two sequences: as many groups as candidates, and
    each group as long as its candidate declares. *)
Definition aligned (tcs : list tc_dt) (tas : list (list ta_dt)) : Prop :=
  Forall2 (λ tc group, N.of_nat (length group) = num_tas tc) tcs tas.

Section Notions.

Variable new_TriggerCandidate : list byte → trgdataformats.TriggerCandidate.

(** The rows a scan from [byte_idx] appends, whatever the reader: the
    candidates, the groups, and how the scan ends. *)
Fixpoint decoded (fuel : nat) (fragment : Fragment) (byte_idx : nat)
    : list tc_dt * list (list ta_dt) * scan_end :=
  if byte_idx <? get_data_size fragment then
    match fuel with
    | 0 => ([], [], Unfinished)
    | S fuel' =>
        let tc_datum := new_TriggerCandidate (get_data fragment byte_idx) in
        let tc := np_tc_datum_of tc_datum in
        match store_tas (np_zeros (num_tas tc)) 0 (trgdataformats.inputs tc_datum) with
        | inl e => ([tc], [], Failed e)
        | inr group =>
            let '(tcs, tas, e) :=
              decoded fuel' fragment (byte_idx + trgdataformats.sizeof tc_datum) in
            (tc :: tcs, group :: tas, e)
        end
    end
  else ([], [], Done byte_idx).

(** The offsets at which the loop decodes a record: offset 0, and the
    offset that follows a record decoded inside the fragment. *)
Inductive visited (fragment : Fragment) : nat → Prop :=
| visited_first : visited fragment 0
| visited_next (byte_idx : nat) :
    visited fragment byte_idx →
    byte_idx < get_data_size fragment →
    visited fragment
      (byte_idx + trgdataformats.sizeof (new_TriggerCandidate (get_data fragment byte_idx))).

(** Every record the loop decodes reports a size that is not zero. *)
Definition progresses (fragment : Fragment) : Prop :=
  ∀ byte_idx, visited fragment byte_idx → byte_idx < get_data_size fragment →
    0 < trgdataformats.sizeof (new_TriggerCandidate (get_data fragment byte_idx)).

(** Iterating over a candidate never yields more activities than
    [n_inputs()] announces. *)
Definition iteration_bounded : Prop :=
  ∀ view,
    length (trgdataformats.inputs (new_TriggerCandidate view))
    ≤ N.to_nat (trgdataformats.n_inputs (new_TriggerCandidate view)).

(** A view that is exactly a concatenation of complete candidate records:
    it is empty, or the record at its head lies within it, holds the
    activities its header declares, and is followed by such a view. *)
Inductive well_formed : list byte → Prop :=
| wf_end : well_formed []
| wf_record (view : list byte) :
    0 < trgdataformats.sizeof (new_TriggerCandidate view) →
    trgdataformats.sizeof (new_TriggerCandidate view) ≤ length view →
    length (trgdataformats.inputs (new_TriggerCandidate view))
      = N.to_nat (trgdataformats.n_inputs (new_TriggerCandidate view)) →
    well_formed (drop (trgdataformats.sizeof (new_TriggerCandidate view)) view) →
    well_formed view.

(** The same as a check that runs; [fuel] bounds the number of records. *)
Fixpoint well_formedb (fuel : nat) (view : list byte) : bool :=
  match view, fuel with
  | [], _ => true
  | _ :: _, 0 => false
  | _ :: _, S fuel' =>
      let tc_datum := new_TriggerCandidate view in
      (0 <? trgdataformats.sizeof tc_datum)
      && (trgdataformats.sizeof tc_datum <=? length view)
      && (length (trgdataformats.inputs tc_datum) =? N.to_nat (trgdataformats.n_inputs tc_datum))
      && well_formedb fuel' (drop (trgdataformats.sizeof tc_datum) view)
  end.

(** The bindings with every declared candidate version replaced by its
    image under [f]. *)
Definition with_versions (f : N → N) (view : list byte) : trgdataformats.TriggerCandidate :=
  let tc_datum := new_TriggerCandidate view in
  let d := trgdataformats.data tc_datum in
  {| trgdataformats.data :=
       {| trgdataformats.tcd_algorithm := trgdataformats.tcd_algorithm d;
          trgdataformats.tcd_detid := trgdataformats.tcd_detid d;
          trgdataformats.tcd_time_candidate := trgdataformats.tcd_time_candidate d;
          trgdataformats.tcd_time_end := trgdataformats.tcd_time_end d;
          trgdataformats.tcd_time_start := trgdataformats.tcd_time_start d;
          trgdataformats.tcd_type := trgdataformats.tcd_type d;
          trgdataformats.tcd_version := f (trgdataformats.tcd_version d) |};
     trgdataformats.n_inputs := trgdataformats.n_inputs tc_datum;
     trgdataformats.sizeof := trgdataformats.sizeof tc_datum;
     trgdataformats.inputs := trgdataformats.inputs tc_datum |}.

End Notions.

(** A candidate row with its version replaced by its image under [f]. *)
Definition tc_map_version (f : N → N) (tc : tc_dt) : tc_dt :=
  {| tc_algorithm := tc_algorithm tc;
     tc_detid := tc_detid tc;
     num_tas := num_tas tc;
     tc_time_candidate := tc_time_candidate tc;
     tc_time_end := tc_time_end tc;
     tc_time_start := tc_time_start tc;
     tc_type := tc_type tc;
     tc_version := f (tc_version tc) |}.

Definition reader_map_version (f : N → N) (self : TCReader) : TCReader :=
  set_tc_data self (tc_map_version f <$> tc_data self).

Definition outcome_map_version (f : N → N) (o : outcome (list tc_dt)) : outcome (list tc_dt) :=
  match o with
  | Return self value => Return (reader_map_version f self) (tc_map_version f <$> value)
  | Raise self e => Raise (reader_map_version f self) e
  | OutOfFuel => OutOfFuel
  end.

(** ** A layout for the records *)

Module Overlay.

(** Modelled from the spec: the byte layout of the records, which belongs
    to the bindings and is not among the sources.  Following sections 3,
    4.3 and 6, a record is a fixed-width header followed by [n]
    fixed-width activities; the fields are packed, little-endian, in the
    order of the dtypes [tc_dt] and [ta_dt], with the widths section 3
    gives and four bytes for an enumerated code.  The bindings overlay a
    record on the memory they are pointed at and never check a length:
    here a byte that the view does not hold reads as zero. *)
Fixpoint le (bytes : list byte) : N :=
  match bytes with
  | [] => 0
  | b :: bytes' => Byte.to_N b + 256 * le bytes'
  end%N.

Definition unsigned (width offset : nat) (view : list byte) : N :=
  le (take width (drop offset view)).

Definition int32 (offset : nat) (view : list byte) : Z :=
  let u := Z.of_N (unsigned 4 offset view) in
  if (u <? 2147483648)%Z then u else (u - 4294967296)%Z.

Definition header_width : nat := 44.
Definition activity_width : nat := 72.

Definition activity (view : list byte) : trgdataformats.TriggerActivityData :=
  {| trgdataformats.adc_integral := unsigned 8 0 view;
     trgdataformats.adc_peak := unsigned 8 8 view;
     trgdataformats.algorithm := unsigned 4 16 view;
     trgdataformats.channel_end := int32 20 view;
     trgdataformats.channel_peak := int32 24 view;
     trgdataformats.channel_start := int32 28 view;
     trgdataformats.detid := unsigned 2 32 view;
     trgdataformats.time_activity := unsigned 8 34 view;
     trgdataformats.time_end := unsigned 8 42 view;
     trgdataformats.time_peak := unsigned 8 50 view;
     trgdataformats.time_start := unsigned 8 58 view;
     trgdataformats.type := unsigned 4 66 view;
     trgdataformats.version := unsigned 2 70 view |}.

Fixpoint activities (n : nat) (view : list byte) : list trgdataformats.TriggerActivityData :=
  match n with
  | 0 => []
  | S n' => activity view :: activities n' (drop activity_width view)
  end.

Definition header (view : list byte) : trgdataformats.TriggerCandidateData :=
  {| trgdataformats.tcd_algorithm := unsigned 4 0 view;
     trgdataformats.tcd_detid := unsigned 2 4 view;
     trgdataformats.tcd_time_candidate := unsigned 8 14 view;
     trgdataformats.tcd_time_end := unsigned 8 22 view;
     trgdataformats.tcd_time_start := unsigned 8 30 view;
     trgdataformats.tcd_type := unsigned 4 38 view;
     trgdataformats.tcd_version := unsigned 2 42 view |}.

Definition TriggerCandidate (view : list byte) : trgdataformats.TriggerCandidate :=
  let n := unsigned 8 6 view in
  {| trgdataformats.data := header view;
     trgdataformats.n_inputs := n;
     trgdataformats.sizeof := header_width + N.to_nat n * activity_width;
     trgdataformats.inputs := activities (N.to_nat n) (drop header_width view) |}.


End Overlay.

(** ** Sample fragments *)

Module Sample.

Definition byte_of (n : N) : byte :=
  match Byte.of_N (n mod 256) with Some b => b | None => x00 end.

(** [width] little-endian bytes of [n]. *)
Fixpoint bytes_le (width : nat) (n : N) : list byte :=
  match width with
  | 0 => []
  | S width' => byte_of n :: bytes_le width' (n / 256)
  end.

Definition tc_bytes (tc : tc_dt) : list byte :=
  bytes_le 4 (tc_algorithm tc) ++ bytes_le 2 (tc_detid tc) ++ bytes_le 8 (num_tas tc)
  ++ bytes_le 8 (tc_time_candidate tc) ++ bytes_le 8 (tc_time_end tc)
  ++ bytes_le 8 (tc_time_start tc) ++ bytes_le 4 (tc_type tc) ++ bytes_le 2 (tc_version tc).

Definition ta_bytes (ta : ta_dt) : list byte :=
  bytes_le 8 (ta_adc_integral ta) ++ bytes_le 8 (ta_adc_peak ta)
  ++ bytes_le 4 (ta_algorithm ta)
  ++ bytes_le 4 (Z.to_N (ta_channel_end ta mod 4294967296))
  ++ bytes_le 4 (Z.to_N (ta_channel_peak ta mod 4294967296))
  ++ bytes_le 4 (Z.to_N (ta_channel_start ta mod 4294967296))
  ++ bytes_le 2 (ta_detid ta) ++ bytes_le 8 (ta_time_activity ta)
  ++ bytes_le 8 (ta_time_end ta) ++ bytes_le 8 (ta_time_peak ta)
  ++ bytes_le 8 (ta_time_start ta) ++ bytes_le 4 (ta_type ta) ++ bytes_le 2 (ta_version ta).

Definition ta1 : ta_dt := mk_ta_dt 5000 900 1 (-3) 12 7 3 100200 100300 100250 100100 1 1.
Definition ta2 : ta_dt := mk_ta_dt 7100 650 1 40 38 35 3 100400 100500 100450 100350 1 1.

(** One candidate with one activity. *)
Definition tc1 : tc_dt := mk_tc_dt 2 3 1 100250 100300 100100 1 1.
Definition fragment1 : Fragment := tc_bytes tc1 ++ ta_bytes ta1.

(** One candidate with two activities. *)
Definition tc2 : tc_dt := mk_tc_dt 2 3 2 100250 100500 100100 1 1.
Definition fragment2 : Fragment := tc_bytes tc2 ++ ta_bytes ta1 ++ ta_bytes ta2.

(** Two candidates. *)
Definition fragment12 : Fragment := fragment1 ++ fragment2.

(** [fragment1] without its last byte. *)
Definition truncated1 : Fragment := removelast fragment1.

(** One candidate without activities whose header declares version 65535. *)
Definition tc_odd : tc_dt := mk_tc_dt 2 3 0 100250 100300 100100 1 65535.
Definition fragment_odd : Fragment := tc_bytes tc_odd.

(** A file with the fragments above under their names. *)
Definition h5_file : HDF5RawDataFile :=
  λ path,
    if String.eqb path "one" then fragment1
    else if String.eqb path "two" then fragment2
    else if String.eqb path "both" then fragment12
    else if String.eqb path "truncated" then truncated1
    else if String.eqb path "odd" then fragment_odd
    else [].

Definition reader : TCReader := __init__ h5_file 0.

(** The reader after it has read each of the fragments. *)
Definition reader_one : TCReader := extend reader [tc1] [[ta1]].
Definition reader_two : TCReader := extend reader [tc2] [[ta1; ta2]].
Definition reader_both : TCReader := extend reader [tc1; tc2] [[ta1]; [ta1; ta2]].

End Sample.

(** ** The other methods of the reader *)

(** NumPy's reading of an integer key on an axis of [size] entries: a key
    from [-size] up to [size - 1] designates an entry, counted from the end
    when it is negative; any other key designates none. *)
Definition np_index (size : nat) (key : Z) : option nat :=
  if (0 <=? key)%Z then
    if (key <? Z.of_nat size)%Z then Some (Z.to_nat key) else None
  else
    if (- Z.of_nat size <=? key)%Z then Some (Z.to_nat (Z.of_nat size + key)) else None.

(** [TCReader.__getitem__] for an integer key (a field name as key, which
    selects a column, is left aside). *)
Definition __getitem__ (self : TCReader) (key : Z) : exn + tc_dt :=
  match np_index (length (tc_data self)) key with
  | Some i =>
      match tc_data self !! i with
      | Some row => inr row
      | None => inl IndexError
      end
  | None => inl IndexError
  end.

(** [TCReader.__setitem__] for an integer key and a row as value. *)
Definition __setitem__ (self : TCReader) (key : Z) (value : tc_dt) : outcome unit :=
  match np_index (length (tc_data self)) key with
  | Some i => Return (set_tc_data self (<[i := value]> (tc_data self))) ()
  | None => Raise self IndexError
  end.

(** Python's [needle in s] on strings. *)
Fixpoint str_in (needle s : string) : bool :=
  String.prefix needle s
  || match s with
     | EmptyString => false
     | String _ s' => str_in needle s'
     end.

(** The loop of [_filter_fragment_paths] (lines 85-87), with the list being
    built as accumulator. *)
Fixpoint filter_fragment_paths_loop (paths fragment_paths : list string) : list string :=
  match paths with
  | [] => fragment_paths
  | path :: paths' =>
      if str_in "Trigger_Candidate" path
      then filter_fragment_paths_loop paths' (fragment_paths ++ [path])
      else filter_fragment_paths_loop paths' fragment_paths
  end.

(** [TCReader._filter_fragment_paths], as the new value of the attribute
    [_fragment_paths] in terms of the old. *)
Definition _filter_fragment_paths (_fragment_paths : list string) : list string :=
  filter_fragment_paths_loop _fragment_paths [].

(** ** The event display script *)

Module event_display.

(** [f"{z}"] for an integer. *)
Definition format_d (z : Z) : string := NilZero.string_of_int (Z.to_int z).

Fixpoint zeros (n : nat) : string :=
  match n with
  | 0 => EmptyString
  | S n' => String "0" (zeros n')
  end.

Definition zfill (width : nat) (digits : string) : string :=
  zeros (width - String.length digits) +:+ digits.

(** [f"{z:04}"]: at least four characters, zeros after the sign. *)
Definition format_04 (z : Z) : string :=
  if (z <? 0)%Z then "-" +:+ zfill 3 (format_d (- z)) else zfill 4 (format_d z).

(** The name both f-strings of [find_save_name] start with. *)
Definition save_name_of (run_id subrun_id trg_record_id : Z) : string :=
  "Run" +:+ format_d run_id +:+ "-Subrun" +:+ format_04 subrun_id
  +:+ "-TriggerRecord" +:+ format_d trg_record_id.

Section FindSaveName.

(** [os.path.exists]. *)
Variable os_path_exists : string → bool.

(** The [while] loop of [find_save_name] (lines 48-49); [None] when the
    fuel runs out. *)
Fixpoint find_save_name_loop (fuel : nat) (run_id subrun_id trg_record_id : Z)
    (overwrite : bool) (save_name : string) : option string :=
  if negb overwrite && os_path_exists (save_name +:+ ".pdf") then
    match fuel with
    | 0 => None
    | S fuel' =>
        find_save_name_loop fuel' run_id subrun_id trg_record_id overwrite
          (save_name_of run_id subrun_id trg_record_id +:+ "-zoom")
    end
  else Some save_name.

(** [find_save_name] (lines 28-52). *)
Definition find_save_name (fuel : nat) (run_id subrun_id trg_record_id : Z)
    (overwrite : bool) : option string :=
  find_save_name_loop fuel run_id subrun_id trg_record_id overwrite
    (save_name_of run_id subrun_id trg_record_id).

End FindSaveName.

(** [\d] on characters below 256: the ten ASCII digits.  (Paths with digits
    of other scripts are the matter of [event_display_unicode] below.) *)
Definition isdigit (c : ascii) : bool :=
  (48 <=? nat_of_ascii c) && (nat_of_ascii c <=? 57).

(** A literal at the head of [s]: what follows it. *)
Fixpoint re_literal (lit s : string) : option string :=
  match lit with
  | EmptyString => Some s
  | String a lit' =>
      match s with
      | EmptyString => None
      | String b s' => if Ascii.eqb a b then re_literal lit' s' else None
      end
  end.

(** [\d{n}] at the head of [s]: the digits and what follows them. *)
Fixpoint re_digits (n : nat) (s : string) : option (string * string) :=
  match n with
  | 0 => Some (EmptyString, s)
  | S n' =>
      match s with
      | EmptyString => None
      | String c s' =>
          if isdigit c then
            match re_digits n' s' with
            | Some (ds, rest) => Some (String c ds, rest)
            | None => None
            end
          else None
      end
  end.

(** The pattern [run(\d{6})_(\d{4})] at the head of [s]: its two groups. *)
Definition re_match_here (s : string) : option (string * string) :=
  match re_literal "run" s with
  | None => None
  | Some s1 =>
      match re_digits 6 s1 with
      | None => None
      | Some (run, s2) =>
          match re_literal "_" s2 with
          | None => None
          | Some s3 =>
              match re_digits 4 s3 with
              | None => None
              | Some (subrun, _) => Some (run, subrun)
              end
          end
      end
  end.

(** [re.search]: the match at the leftmost position that has one. *)
Fixpoint re_search (s : string) : option (string * string) :=
  match re_match_here s with
  | Some groups => Some groups
  | None =>
      match s with
      | EmptyString => None
      | String _ s' => re_search s'
      end
  end.

(** [extract_run_subrun] (lines 114-127). *)
Definition extract_run_subrun (file_path : string) : option string * option string :=
  match re_search file_path with
  | Some (run, subrun) => (Some run, Some subrun)
  | None => (None, None)
  end.

(** What [int(...)] raises. *)
Inductive int_error : Type :=
| TypeError    (* the argument is [None] *)
| ValueError.  (* the argument is no number *)

Definition digit_value (c : ascii) : Z := Z.of_nat (nat_of_ascii c) - 48.

Fixpoint int_digits (acc : Z) (s : string) : Z :=
  match s with
  | EmptyString => acc
  | String c s' => int_digits (10 * acc + digit_value c) s'
  end.

Fixpoint all_digits (s : string) : bool :=
  match s with
  | EmptyString => true
  | String c s' => isdigit c && all_digits s'
  end.

(** [int(x)] on what [extract_run_subrun] returns: [None], or a string of
    digits, read in base ten.  (On other strings [int] accepts more: signs,
    blanks, underscores; the groups of the pattern are digits only.) *)
Definition int (x : option string) : int_error + Z :=
  match x with
  | None => inl TypeError
  | Some s =>
      if all_digits s && negb (String.length s =? 0) then inr (int_digits 0 s)
      else inl ValueError
  end.

(** The loop of [select_file_paths] (lines 142-151); an exception in the
    [try] block skips the path. *)
Fixpoint select_file_paths_loop (filelist : list string) (desired_run desired_subrun : Z)
    (filtered_paths : list string) : list string :=
  match filelist with
  | [] => filtered_paths
  | file_path :: filelist' =>
      let '(run, subrun) := extract_run_subrun file_path in
      match int run with
      | inl _ => select_file_paths_loop filelist' desired_run desired_subrun filtered_paths
      | inr run =>
          match int subrun with
          | inl _ => select_file_paths_loop filelist' desired_run desired_subrun filtered_paths
          | inr subrun =>
              if (run =? desired_run)%Z && (subrun =? desired_subrun)%Z
              then select_file_paths_loop filelist' desired_run desired_subrun
                     (filtered_paths ++ [file_path])
              else select_file_paths_loop filelist' desired_run desired_subrun filtered_paths
          end
      end
  end.

(** [select_file_paths] (lines 129-152). *)
Definition select_file_paths (filelist : list string) (desired_run desired_subrun : Z)
    : list string :=
  select_file_paths_loop filelist desired_run desired_subrun [].

(** [file_path] reads [pre], then [run], six digits, an underscore, four
    digits, then [post]. *)
Definition run_subrun_at (file_path pre run subrun post : string) : Prop :=
  file_path = pre +:+ "run" +:+ run +:+ "_" +:+ subrun +:+ post
  ∧ String.length run = 6 ∧ all_digits run = true
  ∧ String.length subrun = 4 ∧ all_digits subrun = true.

(** The path names the desired run and subrun. *)
Definition names_run_subrun (desired_run desired_subrun : Z) (file_path : string) : bool :=
  match extract_run_subrun file_path with
  | (Some run, Some subrun) =>
      (int_digits 0 run =? desired_run)%Z && (int_digits 0 subrun =? desired_subrun)%Z
  | _ => false
  end.

(** The trigger records [main] processes for one file (lines 236-239): the
    even ones for a file of dataflow 0, the odd ones for any other file. *)
Definition filtered_trg_records (file_path : string) (trg_records : list Z) : list Z :=
  if str_in "dataflow0" file_path
  then filter (λ trgID, (trgID mod 2 =? 0)%Z = true) trg_records
  else filter (λ trgID, (trgID mod 2 =? 0)%Z = false) trg_records.

End event_display.

(** ** The spill matching script *)

Module spill.

Section SpillModeMatching.

(** The frames are taken as [pd.read_csv] returned them.  A cell of the
    columns [Clock] and [Timestamp] is a [cell]; the other columns of a
    trigger record are carried along as they are.  Floating-point
    arithmetic is not fixed: the results hold for every way of dividing by
    1000, of scaling by [TICK_TO_SEC_SCALE], of adding and of comparing
    ([fle a b] is [a <= b], and [b >= a]). *)
Variables cell float columns : Type.
Variable div_1000 : cell → float.
Variable mul_tick_to_sec_scale : cell → float.
Variable fadd : float → float → float.
Variable fle : float → float → bool.
Variable spill_duration : float.

Record trig_record : Type := mk_trig_record {
  Timestamp : float;
  spill_mode : string;
  others : columns
}.

(** [assign_tps_spill_ON] (lines 62-63); the frame is updated in place, so
    the frame after the call is the result. *)
Definition assign_tps_spill_ON (time_ON : float) (df_trig_record : list trig_record)
    : list trig_record :=
  (λ row,
     if fle time_ON (Timestamp row) && fle (Timestamp row) (fadd time_ON spill_duration)
     then {| Timestamp := Timestamp row; spill_mode := "ON"; others := others row |}
     else row) <$> df_trig_record.

(** The loop [for time_ON in time_spill] (lines 55-56). *)
Fixpoint assign_all (time_spill : list float) (trig_Records : list trig_record)
    : list trig_record :=
  match time_spill with
  | [] => trig_Records
  | time_ON :: time_spill' => assign_all time_spill' (assign_tps_spill_ON time_ON trig_Records)
  end.

(** [spill_mode_matching] (lines 37-59), from the column [Clock] of the
    spill frame and the trigger records as read. *)
Definition spill_mode_matching (spill_df : list cell) (trig_Records : list (cell * columns))
    : list trig_record :=
  let time_spill := div_1000 <$> spill_df in
  let trig_Records :=
    (λ r, {| Timestamp := mul_tick_to_sec_scale r.1; spill_mode := "OFF"; others := r.2 |})
      <$> trig_Records in
  assign_all time_spill trig_Records.

(** A trigger record falls within the spill that starts at [clock]. *)
Definition in_spill (clock timestamp : cell) : bool :=
  fle (div_1000 clock) (mul_tick_to_sec_scale timestamp)
  && fle (mul_tick_to_sec_scale timestamp) (fadd (div_1000 clock) spill_duration).

End SpillModeMatching.

Arguments mk_trig_record {float columns} Timestamp spill_mode others.
Arguments Timestamp {float columns} t.
Arguments spill_mode {float columns} t.
Arguments others {float columns} t.
Arguments assign_tps_spill_ON {float columns} fadd fle spill_duration time_ON df_trig_record.
Arguments assign_all {float columns} fadd fle spill_duration time_spill trig_Records.
Arguments spill_mode_matching {cell float columns} div_1000 mul_tick_to_sec_scale
  fadd fle spill_duration spill_df trig_Records.
Arguments in_spill {cell float} div_1000 mul_tick_to_sec_scale fadd fle spill_duration
  clock timestamp.

End spill.

(** ** Candidate objects that break what the reader relies on *)

Module Faulty.

(** A candidate object whose [sizeof()] is zero. *)
Definition TriggerCandidate_stuck (view : list byte) : trgdataformats.TriggerCandidate :=
  let tc_datum := Overlay.TriggerCandidate view in
  {| trgdataformats.data := trgdataformats.data tc_datum;
     trgdataformats.n_inputs := trgdataformats.n_inputs tc_datum;
     trgdataformats.sizeof := 0;
     trgdataformats.inputs := trgdataformats.inputs tc_datum |}.

(** A candidate object that yields [n_inputs() + 1] activities. *)
Definition TriggerCandidate_long (view : list byte) : trgdataformats.TriggerCandidate :=
  let tc_datum := Overlay.TriggerCandidate view in
  {| trgdataformats.data := trgdataformats.data tc_datum;
     trgdataformats.n_inputs := trgdataformats.n_inputs tc_datum;
     trgdataformats.sizeof := trgdataformats.sizeof tc_datum;
     trgdataformats.inputs :=
       Overlay.activities (S (N.to_nat (trgdataformats.n_inputs tc_datum)))
         (drop Overlay.header_width view) |}.

End Faulty.

(** ** The reader when NumPy may refuse an array *)

(** The group stored for one candidate when nothing raises: a row for each
    activity the candidate yields, then the rows left at zero. *)
Definition np_ta_group (tc_datum : trgdataformats.TriggerCandidate) : list ta_dt :=
  (np_ta_datum <$> trgdataformats.inputs tc_datum)
  ++ replicate (N.to_nat (trgdataformats.n_inputs tc_datum)
                - length (trgdataformats.inputs tc_datum)) ta_zero.

Module FiniteMemory.

Section Reader.

Variable new_TriggerCandidate : list byte → trgdataformats.TriggerCandidate.

(** What [np.zeros(n, dtype=ta_dt)] raises, when it raises: ValueError for
    a size no array can have, MemoryError when the memory is not to be had.
    Which sizes are refused depends on NumPy and on the machine, so the
    results hold for every such function. *)
Variable np_zeros_raises : N → option exn.

(** The body of the [while] loop (lines 126-162), with line 145 raising
    when NumPy refuses the array.  The candidate is appended to [tc_data]
    (line 138) before that. *)
Definition scan_body (fragment : Fragment) (self : TCReader) (byte_idx : nat) : body_end :=
  let tc_datum := new_TriggerCandidate (get_data fragment byte_idx) in
  let np_tc_datum := np_tc_datum_of tc_datum in
  let self := set_tc_data self (tc_data self ++ [np_tc_datum]) in
  let byte_idx := byte_idx + trgdataformats.sizeof tc_datum in
  match np_zeros_raises (num_tas np_tc_datum) with
  | Some e => Abort self e
  | None =>
      let np_ta_data := np_zeros (num_tas np_tc_datum) in
      match store_tas np_ta_data 0 (trgdataformats.inputs tc_datum) with
      | inl e => Abort self e
      | inr np_ta_data =>
          Next (set_ta_data self (ta_data self ++ [np_ta_data])) byte_idx np_tc_datum
      end
  end.

(** The [while] loop (lines 119-162). *)
Fixpoint scan (fuel : nat) (fragment : Fragment) (self : TCReader)
    (byte_idx : nat) (np_tc_datum : option tc_dt) : outcome (nat * option tc_dt) :=
  if byte_idx <? get_data_size fragment then
    match fuel with
    | 0 => OutOfFuel
    | S fuel' =>
        match scan_body fragment self byte_idx with
        | Next self' byte_idx' np_tc_datum' =>
            scan fuel' fragment self' byte_idx' (Some np_tc_datum')
        | Abort self' e => Raise self' e
        end
    end
  else Return self (byte_idx, np_tc_datum).

(** [TCReader.read_fragment] (lines 92-167). *)
Definition read_fragment (fuel : nat) (self : TCReader) (fragment_path : string)
    : outcome (list tc_dt) :=
  let fragment := get_frag (_h5_file (super self)) fragment_path in
  let fragment_data_size := get_data_size fragment in
  if fragment_data_size =? 0 then
    Return (incr_num_empty self) []
  else
    match scan fuel fragment self 0 None with
    | Return self' (_, Some np_tc_datum) => Return self' [np_tc_datum]
    | Return self' (_, None) => Raise self' UnboundLocalError
    | Raise self' e => Raise self' e
    | OutOfFuel => OutOfFuel
    end.

(** The rows a scan from [byte_idx] appends, whatever the reader. *)
Fixpoint decoded (fuel : nat) (fragment : Fragment) (byte_idx : nat)
    : list tc_dt * list (list ta_dt) * scan_end :=
  if byte_idx <? get_data_size fragment then
    match fuel with
    | 0 => ([], [], Unfinished)
    | S fuel' =>
        let tc_datum := new_TriggerCandidate (get_data fragment byte_idx) in
        let tc := np_tc_datum_of tc_datum in
        match np_zeros_raises (num_tas tc) with
        | Some e => ([tc], [], Failed e)
        | None =>
            match store_tas (np_zeros (num_tas tc)) 0 (trgdataformats.inputs tc_datum) with
            | inl e => ([tc], [], Failed e)
            | inr group =>
                let '(tcs, tas, e) :=
                  decoded fuel' fragment (byte_idx + trgdataformats.sizeof tc_datum) in
                (tc :: tcs, group :: tas, e)
            end
        end
    end
  else ([], [], Done byte_idx).

(** The candidates the loop meets from [byte_idx] on, in order: the one
    at [byte_idx], then the one its size leads to, as long as the offset is
    inside the fragment. *)
Fixpoint candidates (fuel : nat) (fragment : Fragment) (byte_idx : nat)
    : list trgdataformats.TriggerCandidate :=
  if byte_idx <? get_data_size fragment then
    match fuel with
    | 0 => []
    | S fuel' =>
        let tc_datum := new_TriggerCandidate (get_data fragment byte_idx) in
        tc_datum :: candidates fuel' fragment (byte_idx + trgdataformats.sizeof tc_datum)
    end
  else [].

(** At every record the loop decodes, NumPy hands out the array and the
    candidate yields no activity beyond its count. *)
Definition stores (fragment : Fragment) : Prop :=
  ∀ byte_idx,
    visited new_TriggerCandidate fragment byte_idx →
    byte_idx < get_data_size fragment →
    np_zeros_raises
      (trgdataformats.n_inputs (new_TriggerCandidate (get_data fragment byte_idx))) = None
    ∧ length (trgdataformats.inputs (new_TriggerCandidate (get_data fragment byte_idx)))
      ≤ N.to_nat (trgdataformats.n_inputs (new_TriggerCandidate (get_data fragment byte_idx))).

(** The readers that [__init__], calls of [read_fragment] that return, and
    [clear_data] lead to. *)
Inductive reachable : TCReader → Prop :=
| reach_init (h5_file : HDF5RawDataFile) (verbosity : Z) :
    reachable (__init__ h5_file verbosity)
| reach_read (self self' : TCReader) (fuel : nat) (path : string) (value : list tc_dt) :
    reachable self →
    read_fragment fuel self path = Return self' value →
    reachable self'
| reach_clear (self : TCReader) :
    reachable self →
    reachable (clear_data self).

End Reader.

End FiniteMemory.

(** A fragment NumPy cannot hold the activities of. *)
Module Corrupt.

(** One candidate whose header declares 2^63 activities, and nothing after
    it. *)
Definition tc_huge : tc_dt := mk_tc_dt 2 3 9223372036854775808 100250 100300 100100 1 1.
Definition fragment_huge : Fragment := Sample.tc_bytes tc_huge.

Definition h5_file : HDF5RawDataFile := λ _, fragment_huge.

Definition reader : TCReader := __init__ h5_file 0.

(** NumPy here: no array has 2^63 rows or more; every other is obtained. *)
Definition np_zeros_raises (n : N) : option exn :=
  if (9223372036854775808 <=? n)%N then Some ValueError else None.

End Corrupt.

(** ** File paths as Python strings *)

Module event_display_unicode.

(** A Python string is a sequence of code points. *)
Definition str : Type := list N.

(** The string of an ASCII text. *)
Definition code_points (s : string) : str := N_of_ascii <$> list_ascii_of_string s.

Section Digits.

(** [\d] in a pattern on [str]: the decimal digits of Unicode, of every
    script.  Which code points they are is the matter of the Unicode
    database, so the results hold for every such class. *)
Variable isdecimal : N → bool.

(** The value [int] reads a decimal digit as. *)
Variable decimal_value : N → Z.

(** A literal at the head of [s]: what follows it. *)
Fixpoint re_literal (lit s : str) : option str :=
  match lit with
  | [] => Some s
  | a :: lit' =>
      match s with
      | [] => None
      | b :: s' => if (a =? b)%N then re_literal lit' s' else None
      end
  end.

(** [\d{n}] at the head of [s]: the digits and what follows them. *)
Fixpoint re_digits (n : nat) (s : str) : option (str * str) :=
  match n with
  | 0 => Some ([], s)
  | S n' =>
      match s with
      | [] => None
      | c :: s' =>
          if isdecimal c then
            match re_digits n' s' with
            | Some (ds, rest) => Some (c :: ds, rest)
            | None => None
            end
          else None
      end
  end.

(** The pattern [run(\d{6})_(\d{4})] at the head of [s]: its two groups. *)
Definition re_match_here (s : str) : option (str * str) :=
  match re_literal (code_points "run") s with
  | None => None
  | Some s1 =>
      match re_digits 6 s1 with
      | None => None
      | Some (run, s2) =>
          match re_literal (code_points "_") s2 with
          | None => None
          | Some s3 =>
              match re_digits 4 s3 with
              | None => None
              | Some (subrun, _) => Some (run, subrun)
              end
          end
      end
  end.

(** [re.search]: the match at the leftmost position that has one. *)
Fixpoint re_search (s : str) : option (str * str) :=
  match re_match_here s with
  | Some groups => Some groups
  | None =>
      match s with
      | [] => None
      | _ :: s' => re_search s'
      end
  end.

(** [extract_run_subrun] (lines 114-127). *)
Definition extract_run_subrun (file_path : str) : option str * option str :=
  match re_search file_path with
  | Some (run, subrun) => (Some run, Some subrun)
  | None => (None, None)
  end.

Fixpoint int_digits (acc : Z) (s : str) : Z :=
  match s with
  | [] => acc
  | c :: s' => int_digits (10 * acc + decimal_value c) s'
  end.

(** [int(x)] on what [extract_run_subrun] returns: [None], or a string of
    decimal digits, read in base ten.  (On other strings [int] accepts
    more: signs, blanks, underscores; the groups of the pattern are decimal
    digits only.) *)
Definition int (x : option str) : event_display.int_error + Z :=
  match x with
  | None => inl event_display.TypeError
  | Some s =>
      if forallb isdecimal s && negb (length s =? 0) then inr (int_digits 0 s)
      else inl event_display.ValueError
  end.

(** The loop of [select_file_paths] (lines 142-151); an exception in the
    [try] block skips the path. *)
Fixpoint select_file_paths_loop (filelist : list str) (desired_run desired_subrun : Z)
    (filtered_paths : list str) : list str :=
  match filelist with
  | [] => filtered_paths
  | file_path :: filelist' =>
      let '(run, subrun) := extract_run_subrun file_path in
      match int run with
      | inl _ => select_file_paths_loop filelist' desired_run desired_subrun filtered_paths
      | inr run =>
          match int subrun with
          | inl _ => select_file_paths_loop filelist' desired_run desired_subrun filtered_paths
          | inr subrun =>
              if (run =? desired_run)%Z && (subrun =? desired_subrun)%Z
              then select_file_paths_loop filelist' desired_run desired_subrun
                     (filtered_paths ++ [file_path])
              else select_file_paths_loop filelist' desired_run desired_subrun filtered_paths
          end
      end
  end.

(** [select_file_paths] (lines 129-152). *)
Definition select_file_paths (filelist : list str) (desired_run desired_subrun : Z)
    : list str :=
  select_file_paths_loop filelist desired_run desired_subrun [].

(** [file_path] reads [pre], then [run], six decimal digits, an underscore,
    four decimal digits, then [post]. *)
Definition run_subrun_at (file_path pre run subrun post : str) : Prop :=
  file_path = pre ++ code_points "run" ++ run ++ code_points "_" ++ subrun ++ post
  ∧ length run = 6 ∧ forallb isdecimal run = true
  ∧ length subrun = 4 ∧ forallb isdecimal subrun = true.

(** The path names the desired run and subrun. *)
Definition names_run_subrun (desired_run desired_subrun : Z) (file_path : str) : bool :=
  match extract_run_subrun file_path with
  | (Some run, Some subrun) =>
      (int_digits 0 run =? desired_run)%Z && (int_digits 0 subrun =? desired_subrun)%Z
  | _ => false
  end.

End Digits.

(** Two of the scripts of Unicode: the ASCII digits and the Arabic-Indic
    digits (U+0660 to U+0669). *)
Definition two_scripts (c : N) : bool :=
  ((48 <=? c) && (c <=? 57) || (1632 <=? c) && (c <=? 1641))%N.

Definition two_scripts_value (c : N) : Z :=
  if (c <=? 57)%N then Z.of_N c - 48 else Z.of_N c - 1632.

(** A path with run 028676 and subrun 0012 in ASCII digits. *)
Definition ascii_path : str := code_points "/data/np04hd_raw_run028676_0012_dataflow0.hdf5".

(** The same path with the run and subrun in Arabic-Indic digits. *)
Definition arabic_path : str :=
  code_points "/data/np04hd_raw_run" ++ [1632; 1634; 1640; 1638; 1639; 1638]%N
  ++ code_points "_" ++ [1632; 1632; 1633; 1634]%N ++ code_points "_dataflow0.hdf5".

End event_display_unicode.

(** ** Storing the activities of one candidate *)

Lemma store_tas_length (tas : list trgdataformats.TriggerActivityData) :
  ∀ (np_ta_data np_ta_data' : list ta_dt) (ta_idx : nat),
    store_tas np_ta_data ta_idx tas = inr np_ta_data' →
    length np_ta_data' = length np_ta_data.
Proof.
  induction tas as [|ta tas IH]; intros l l' i; simpl.
  - intros [= <-]. reflexivity.
  - destruct (i <? length l); [|discriminate].
    intros H. apply IH in H. rewrite H. apply length_insert.
Qed.

(** With [done] already stored in front, the remaining activities overwrite
    the rows that follow, as long as there are rows left. *)
Lemma store_tas_from (tas : list trgdataformats.TriggerActivityData) :
  ∀ (done rest : list ta_dt),
    store_tas (done ++ rest) (length done) tas =
      if decide (length tas ≤ length rest)
      then inr (done ++ (np_ta_datum <$> tas) ++ drop (length tas) rest)
      else inl IndexError.
Proof.
  induction tas as [|ta tas IH]; intros done rest; cbn [store_tas fmap list_fmap].
  - rewrite decide_True by (cbn [length]; lia). rewrite drop_0. reflexivity.
  - rewrite length_app. destruct rest as [|row rest]; cbn [length].
    + replace (length done <? length done + 0) with false
        by (symmetry; apply Nat.ltb_ge; lia).
      rewrite decide_False by lia. reflexivity.
    + replace (length done <? length done + S (length rest)) with true
        by (symmetry; apply Nat.ltb_lt; lia).
      rewrite insert_app_r_alt by lia.
      replace (length done - length done) with 0 by lia.
      cbn [insert list_insert drop].
      replace (done ++ np_ta_datum ta :: rest)
        with ((done ++ [np_ta_datum ta]) ++ rest) by (rewrite <- app_assoc; reflexivity).
      replace (S (length done)) with (length (done ++ [np_ta_datum ta]))
        by (rewrite length_app; simpl; lia).
      rewrite IH.
      destruct (decide (length tas ≤ length rest)).
      * rewrite decide_True by lia. rewrite <- app_assoc. reflexivity.
      * rewrite decide_False by lia. reflexivity.
Qed.

(** The group of one candidate: the activities met, then rows left at zero;
    an activity too many raises. *)
Lemma store_tas_zeros (n : N) (tas : list trgdataformats.TriggerActivityData) :
  store_tas (np_zeros n) 0 tas =
    if decide (length tas ≤ N.to_nat n)
    then inr ((np_ta_datum <$> tas) ++ replicate (N.to_nat n - length tas) ta_zero)
    else inl IndexError.
Proof.
  pose proof (store_tas_from tas [] (np_zeros n)) as H. simpl in H.
  rewrite H. unfold np_zeros. rewrite length_replicate, drop_replicate. reflexivity.
Qed.

Lemma extend_nil (self : TCReader) : extend self [] [] = self.
Proof. destruct self. unfold extend. simpl. rewrite !app_nil_r. reflexivity. Qed.

Lemma extend_extend (self : TCReader) tcs tas tcs' tas' :
  extend (extend self tcs tas) tcs' tas' = extend self (tcs ++ tcs') (tas ++ tas').
Proof. unfold extend. simpl. rewrite !app_assoc. reflexivity. Qed.

Section ReaderFacts.

Variable new_TriggerCandidate : list byte → trgdataformats.TriggerCandidate.

Local Abbreviation scan_body := (scan_body new_TriggerCandidate).
Local Abbreviation scan := (scan new_TriggerCandidate).
Local Abbreviation read_fragment := (read_fragment new_TriggerCandidate).
Local Abbreviation decoded := (decoded new_TriggerCandidate).

(** One pass through the loop body, at a glance. *)
Lemma scan_body_eq (fragment : Fragment) (self : TCReader) (byte_idx : nat) :
  let tc_datum := new_TriggerCandidate (get_data fragment byte_idx) in
  let tc := np_tc_datum_of tc_datum in
  scan_body fragment self byte_idx =
    match store_tas (np_zeros (num_tas tc)) 0 (trgdataformats.inputs tc_datum) with
    | inl e => Abort (extend self [tc] []) e
    | inr group => Next (extend self [tc] [group]) (byte_idx + trgdataformats.sizeof tc_datum) tc
    end.
Proof.
  intros tc_datum tc. unfold scan_body. fold tc_datum. fold tc.
  destruct (store_tas _ _ _); unfold extend, set_ta_data, set_tc_data; simpl;
    rewrite ?app_nil_r; reflexivity.
Qed.

(** The loop appends to the reader what [decoded] lists, and nothing
    else of the reader matters. *)
Lemma scan_decoded (fragment : Fragment) (fuel : nat) :
  ∀ (self : TCReader) (byte_idx : nat) (np_tc_datum : option tc_dt),
    scan fuel fragment self byte_idx np_tc_datum =
      match decoded fuel fragment byte_idx with
      | (tcs, tas, Done byte_idx') =>
          Return (extend self tcs tas)
                 (byte_idx', match last tcs with Some tc => Some tc | None => np_tc_datum end)
      | (tcs, tas, Failed e) => Raise (extend self tcs tas) e
      | (_, _, Unfinished) => OutOfFuel
      end.
Proof.
  induction fuel as [|fuel IH]; intros self byte_idx np_tc_datum; simpl.
  - destruct (byte_idx <? get_data_size fragment); [reflexivity|].
    rewrite extend_nil. reflexivity.
  - destruct (byte_idx <? get_data_size fragment).
    + rewrite scan_body_eq.
      destruct (store_tas _ _ _) as [e|group]; [reflexivity|].
      rewrite IH.
      destruct (decoded fuel fragment _) as [[tcs tas] [j|e|]]; [| |reflexivity].
      * rewrite extend_extend. simpl. rewrite last_cons.
        destruct (last tcs); reflexivity.
      * rewrite extend_extend. reflexivity.
    + rewrite extend_nil. reflexivity.
Qed.

(** A scan that runs at all appends a candidate. *)
Lemma decoded_nonempty (fragment : Fragment) (fuel byte_idx : nat) tcs tas e :
  byte_idx < get_data_size fragment →
  decoded fuel fragment byte_idx = (tcs, tas, e) →
  e ≠ Unfinished →
  tcs ≠ [].
Proof.
  intros Hlt. apply Nat.ltb_lt in Hlt.
  destruct fuel as [|fuel]; simpl; rewrite Hlt.
  - intros [= <- <- <-]. congruence.
  - destruct (store_tas _ _ _).
    + intros [= <- <- <-]. discriminate.
    + destruct (decoded fuel fragment _) as [[tcs' tas'] e'].
      intros [= <- <- <-]. discriminate.
Qed.

(** [read_fragment] in terms of [decoded]. *)
Lemma read_fragment_decoded (fuel : nat) (self : TCReader) (path : string) :
  let fragment := get_frag (_h5_file (super self)) path in
  read_fragment fuel self path =
    if get_data_size fragment =? 0 then Return (incr_num_empty self) []
    else
      match decoded fuel fragment 0 with
      | (tcs, tas, Done _) =>
          match last tcs with
          | Some tc => Return (extend self tcs tas) [tc]
          | None => Raise (extend self tcs tas) UnboundLocalError
          end
      | (tcs, tas, Failed e) => Raise (extend self tcs tas) e
      | (_, _, Unfinished) => OutOfFuel
      end.
Proof.
  intros fragment. unfold read_fragment. fold fragment.
  destruct (get_data_size fragment =? 0); [reflexivity|].
  rewrite scan_decoded.
  destruct (decoded fuel fragment 0) as [[tcs tas] [j|e|]]; try reflexivity.
  destruct (last tcs); reflexivity.
Qed.

(** The groups stand in line with their candidates. *)
Lemma decoded_aligned (fragment : Fragment) (fuel : nat) :
  ∀ byte_idx tcs tas j,
    decoded fuel fragment byte_idx = (tcs, tas, Done j) →
    aligned tcs tas.
Proof.
  induction fuel as [|fuel IH]; intros byte_idx tcs tas j; simpl.
  - destruct (byte_idx <? _); intros [= <- <-]; constructor.
  - destruct (byte_idx <? _); [|intros [= <- <-]; constructor].
    destruct (store_tas _ _ _) as [e|group] eqn:Hstore; [discriminate|].
    destruct (decoded fuel fragment _) as [[tcs' tas'] e'] eqn:Hrest.
    intros [= <- <- ->]. constructor; [|exact (IH _ _ _ _ Hrest)].
    apply store_tas_length in Hstore. rewrite Hstore.
    unfold np_zeros. rewrite length_replicate. apply N2Nat.id.
Qed.

(** A raise is always the store of an activity too many. *)
Lemma decoded_failed (fragment : Fragment) (fuel : nat) :
  ∀ byte_idx tcs tas e,
    iteration_bounded new_TriggerCandidate →
    decoded fuel fragment byte_idx = (tcs, tas, Failed e) →
    False.
Proof.
  induction fuel as [|fuel IH]; intros byte_idx tcs tas e Hb; simpl.
  - destruct (byte_idx <? _); discriminate.
  - destruct (byte_idx <? _); [|discriminate].
    rewrite store_tas_zeros. rewrite decide_True by apply Hb.
    destruct (decoded fuel fragment _) as [[tcs' tas'] e'] eqn:Hrest.
    intros [= <- <- ->]. eauto.
Qed.

(** Enough fuel for a scan that progresses: the bytes left. *)
Lemma decoded_finishes (fragment : Fragment) (fuel : nat) :
  progresses new_TriggerCandidate fragment →
  ∀ byte_idx,
    visited new_TriggerCandidate fragment byte_idx →
    get_data_size fragment - byte_idx ≤ fuel →
    (decoded fuel fragment byte_idx).2 ≠ Unfinished.
Proof.
  intros Hp. induction fuel as [|fuel IH]; intros byte_idx Hvis Hfuel; simpl.
  - destruct (byte_idx <? _) eqn:Hlt; [|discriminate].
    apply Nat.ltb_lt in Hlt. lia.
  - destruct (byte_idx <? _) eqn:Hlt; [|discriminate].
    apply Nat.ltb_lt in Hlt.
    destruct (store_tas _ _ _); [discriminate|].
    pose proof (Hp byte_idx Hvis Hlt) as Hpos.
    pose proof (visited_next _ _ _ Hvis Hlt) as Hvis'.
    specialize (IH _ Hvis').
    destruct (decoded fuel fragment _) as [[tcs' tas'] e']. simpl in *.
    apply IH. lia.
Qed.

(** More fuel does not change a finished scan. *)
Lemma decoded_more_fuel (fragment : Fragment) (fuel : nat) :
  ∀ byte_idx fuel',
    (decoded fuel fragment byte_idx).2 ≠ Unfinished →
    fuel ≤ fuel' →
    decoded fuel' fragment byte_idx = decoded fuel fragment byte_idx.
Proof.
  induction fuel as [|fuel IH]; intros byte_idx fuel'; simpl.
  - destruct (byte_idx <? _) eqn:Hlt; [simpl; congruence|].
    intros _ _. destruct fuel'; simpl; rewrite Hlt; reflexivity.
  - destruct (byte_idx <? _) eqn:Hlt.
    + intros Hfin Hle. destruct fuel' as [|fuel']; [lia|]. simpl. rewrite Hlt.
      destruct (store_tas _ _ _); [reflexivity|].
      rewrite (IH _ fuel'); [reflexivity| |lia].
      destruct (decoded fuel fragment _) as [[tcs' tas'] e']. exact Hfin.
    + intros _ _. destruct fuel'; simpl; rewrite Hlt; reflexivity.
Qed.

(** So the fuel is no part of a result: once a call ends, it ends the same
    way with any larger fuel. *)
Lemma read_fragment_more_fuel (fuel fuel' : nat) (self : TCReader) (path : string) :
  read_fragment fuel self path ≠ OutOfFuel →
  fuel ≤ fuel' →
  read_fragment fuel' self path = read_fragment fuel self path.
Proof.
  rewrite !read_fragment_decoded.
  destruct (_ =? 0); [reflexivity|].
  intros Hend Hle.
  rewrite (decoded_more_fuel _ fuel 0 fuel'); [reflexivity| |exact Hle].
  destruct (decoded fuel _ 0) as [[tcs tas] [j|e|]]; simpl; congruence.
Qed.

End ReaderFacts.

(** ** The sample layout keeps to what the reader relies on *)

Lemma Overlay_activities_length (n : nat) :
  ∀ view, length (Overlay.activities n view) = n.
Proof. induction n as [|n IH]; intros view; simpl; [reflexivity|]. rewrite IH. reflexivity. Qed.

Lemma Overlay_iteration_bounded : iteration_bounded Overlay.TriggerCandidate.
Proof. intros view. simpl. rewrite Overlay_activities_length. lia. Qed.

Lemma Overlay_progresses (fragment : Fragment) : progresses Overlay.TriggerCandidate fragment.
Proof. intros byte_idx _ _. simpl. unfold Overlay.header_width. lia. Qed.

Section Claims.

Variable new_TriggerCandidate : list byte → trgdataformats.TriggerCandidate.

Lemma well_formedb_sound (fuel : nat) :
  ∀ view, well_formedb new_TriggerCandidate fuel view = true →
          well_formed new_TriggerCandidate view.
Proof.
  induction fuel as [|fuel IH]; intros [|b view]; cbn [well_formedb].
  1, 3: intros _; apply wf_end.
  1: discriminate.
  set (tc_datum := new_TriggerCandidate (b :: view)).
  rewrite !andb_true_iff, Nat.ltb_lt, Nat.leb_le, Nat.eqb_eq.
  intros [[[Hpos Hle] Hlen] Hrest]. apply wf_record; auto.
Qed.

(** [read_fragment] leaves the file where it is. *)
Lemma read_fragment_h5_file (fuel : nat) (self self' : TCReader) (path : string) value :
  read_fragment new_TriggerCandidate fuel self path = Return self' value →
  _h5_file (super self') = _h5_file (super self).
Proof.
  rewrite read_fragment_decoded.
  destruct (_ =? 0); [intros [= <- _]; reflexivity|].
  destruct (decoded _ _ _ _) as [[tcs tas] [j|e|]]; try discriminate.
  destruct (last tcs); [|discriminate]. intros [= <- _]. reflexivity.
Qed.

(** A returning [read_fragment] keeps the two sequences aligned. *)
Lemma read_fragment_aligned (fuel : nat) (self self' : TCReader) (path : string) value :
  aligned (tc_data self) (ta_data self) →
  read_fragment new_TriggerCandidate fuel self path = Return self' value →
  aligned (tc_data self') (ta_data self').
Proof.
  intros Hal. rewrite read_fragment_decoded.
  destruct (_ =? 0); [intros [= <- _]; exact Hal|].
  destruct (decoded _ _ _ _) as [[tcs tas] [j|e|]] eqn:Hdec; try discriminate.
  destruct (last tcs); [|discriminate]. intros [= <- _]. simpl.
  apply Forall2_app; [exact Hal|]. eapply decoded_aligned; eauto.
Qed.

Lemma decoded_with_versions (f : N → N) (fragment : Fragment) (fuel : nat) :
  ∀ byte_idx,
    decoded (with_versions new_TriggerCandidate f) fuel fragment byte_idx =
      let '(tcs, tas, e) := decoded new_TriggerCandidate fuel fragment byte_idx in
      (tc_map_version f <$> tcs, tas, e).
Proof.
  induction fuel as [|fuel IH]; intros byte_idx; simpl.
  - destruct (byte_idx <? _); reflexivity.
  - destruct (byte_idx <? _); [|reflexivity].
    destruct (store_tas _ _ _); [reflexivity|].
    rewrite IH. destruct (decoded new_TriggerCandidate fuel fragment _) as [[tcs tas] e].
    reflexivity.
Qed.

Lemma reader_map_version_extend (f : N → N) (self : TCReader) tcs tas :
  reader_map_version f (extend self tcs tas)
  = extend (reader_map_version f self) (tc_map_version f <$> tcs) tas.
Proof. unfold reader_map_version, extend, set_tc_data. simpl. rewrite fmap_app. reflexivity. Qed.

(** ** The properties of the reader *)

(** C9: whatever the reader holds, [clear_data] leaves both sequences empty
    and the length 0; a second [clear_data] leaves the length 0 again and
    changes nothing more.  No call can fail. *)
Theorem clear_data_idempotent (self : TCReader) :
  tc_data (clear_data self) = []
  ∧ ta_data (clear_data self) = []
  ∧ __len__ (clear_data self) = 0
  ∧ __len__ (clear_data (clear_data self)) = 0
  ∧ clear_data (clear_data self) = clear_data self.
Proof. repeat split. Qed.

(** C5: on a fragment of zero bytes [read_fragment] returns, whatever the
    fuel; it returns the empty array, leaves [tc_data] and [ta_data] as they
    were, and has added exactly one to [_num_empty]. *)
Theorem read_fragment_empty (fuel : nat) (self : TCReader) (path : string) :
  get_data_size (get_frag (_h5_file (super self)) path) = 0 →
  ∃ self',
    read_fragment new_TriggerCandidate fuel self path = Return self' []
    ∧ tc_data self' = tc_data self
    ∧ ta_data self' = ta_data self
    ∧ _num_empty (super self') = _num_empty (super self) + 1.
Proof.
  intros Hsize. exists (incr_num_empty self).
  unfold read_fragment. rewrite Hsize. repeat split.
Qed.

(** C3: on a fragment that is exactly a concatenation of complete candidate
    records, the loop ends, and it ends with [byte_idx] equal to the size of
    the fragment. *)
Theorem scan_covers_fragment (fragment : Fragment) :
  well_formed new_TriggerCandidate fragment →
  ∀ (self : TCReader) (fuel : nat),
    get_data_size fragment ≤ fuel →
    ∃ self' np_tc_datum,
      scan new_TriggerCandidate fuel fragment self 0 None
      = Return self' (get_data_size fragment, np_tc_datum).
Proof.
  intros Hwf self fuel Hfuel.
  assert (∀ view, well_formed new_TriggerCandidate view →
          ∀ byte_idx fuel, view = drop byte_idx fragment →
            byte_idx ≤ length fragment →
            length fragment - byte_idx ≤ fuel →
            ∃ tcs tas, decoded new_TriggerCandidate fuel fragment byte_idx
                       = (tcs, tas, Done (length fragment))) as Hgen.
  { clear. intros view Hwf.
    induction Hwf as [|view Hpos Hin Hcount _ IH]; intros byte_idx fuel Hview Hle Hfuel.
    - assert (byte_idx = length fragment) as ->.
      { apply (f_equal length) in Hview. rewrite length_drop in Hview. simpl in Hview. lia. }
      exists [], []. destruct fuel; simpl; unfold get_data_size;
        rewrite Nat.ltb_irrefl; reflexivity.
    - assert (byte_idx < length fragment) as Hlt.
      { apply (f_equal length) in Hview. rewrite length_drop in Hview. lia. }
      destruct fuel as [|fuel]; [lia|]. simpl. unfold get_data_size, get_data.
      apply Nat.ltb_lt in Hlt as Hltb. rewrite Hltb. rewrite <- Hview.
      rewrite store_tas_zeros. rewrite decide_True by (simpl; lia).
      destruct (IH (byte_idx + trgdataformats.sizeof (new_TriggerCandidate view)) fuel)
        as (tcs & tas & Hrest).
      + rewrite Hview. rewrite drop_drop. reflexivity.
      + apply (f_equal length) in Hview. rewrite length_drop in Hview. lia.
      + lia.
      + unfold get_data_size in Hrest. rewrite Hrest. eauto. }
  destruct (Hgen fragment Hwf 0 fuel) as (tcs & tas & Hdec).
  - rewrite drop_0. reflexivity.
  - lia.
  - unfold get_data_size in Hfuel. lia.
  - rewrite scan_decoded, Hdec. unfold get_data_size. eauto.
Qed.

(** C7: when every record the loop decodes in the fragment reports a size
    that is not zero, each pass through the loop body leaves [byte_idx]
    strictly larger than it found it, and the loop ends (by running off the
    fragment or by raising) within as many passes as the fragment has
    bytes. *)
Theorem scan_terminates (fragment : Fragment) :
  progresses new_TriggerCandidate fragment →
  (∀ self byte_idx self' byte_idx' np_tc_datum,
     visited new_TriggerCandidate fragment byte_idx →
     byte_idx < get_data_size fragment →
     scan_body new_TriggerCandidate fragment self byte_idx = Next self' byte_idx' np_tc_datum →
     byte_idx < byte_idx')
  ∧ (∀ self fuel,
       get_data_size fragment ≤ fuel →
       scan new_TriggerCandidate fuel fragment self 0 None ≠ OutOfFuel).
Proof.
  intros Hp. split.
  - intros self byte_idx self' byte_idx' tc Hvis Hlt. rewrite scan_body_eq.
    specialize (Hp byte_idx Hvis Hlt).
    destruct (store_tas _ _ _); [discriminate|]. intros [= _ <- _]. lia.
  - intros self fuel Hfuel. rewrite scan_decoded.
    pose proof (decoded_finishes new_TriggerCandidate fragment fuel Hp 0
                  (visited_first _ _)) as Hfin.
    destruct (decoded new_TriggerCandidate fuel fragment 0) as [[tcs tas] [j|e|]];
      try discriminate.
    exfalso. apply Hfin; [lia|reflexivity].
Qed.

(** C8: when two fragments each decode into an empty dataset, decoding the
    second after the first into one dataset returns as well, and both
    sequences are then the first result followed by the second, in that
    order, with nothing moved and nothing dropped. *)
Theorem read_fragment_concat (self0 self1 self2 : TCReader) (fuel1 fuel2 : nat)
    (path1 path2 : string) (value1 value2 : list tc_dt) :
  tc_data self0 = [] →
  ta_data self0 = [] →
  read_fragment new_TriggerCandidate fuel1 self0 path1 = Return self1 value1 →
  read_fragment new_TriggerCandidate fuel2 self0 path2 = Return self2 value2 →
  ∃ self12,
    read_fragment new_TriggerCandidate fuel2 self1 path2 = Return self12 value2
    ∧ tc_data self12 = tc_data self1 ++ tc_data self2
    ∧ ta_data self12 = ta_data self1 ++ ta_data self2.
Proof.
  intros Htc Hta Hread1 Hread2.
  apply read_fragment_h5_file in Hread1 as Hfile.
  revert Hread2. rewrite !read_fragment_decoded. rewrite Hfile.
  destruct (_ =? 0).
  - intros [= <- <-]. eexists. split; [reflexivity|]. simpl.
    rewrite Htc, Hta, !app_nil_r. split; reflexivity.
  - destruct (decoded _ _ _ _) as [[tcs tas] [j|e|]]; try discriminate.
    destruct (last tcs); [|discriminate].
    intros [= <- <-]. eexists. split; [reflexivity|]. simpl.
    rewrite Htc, Hta. split; reflexivity.
Qed.

End Claims.

(** ** What the reader does not check *)

Lemma removelast_length {A : Type} (l : list A) :
  length (removelast l) = length l - 1.
Proof.
  rewrite removelast_firstn_len. rewrite length_take. lia.
Qed.

Section Unchecked.

Variable new_TriggerCandidate : list byte → trgdataformats.TriggerCandidate.

(** C1, as the reader behaves: take a fragment that is a valid one-candidate
    fragment without its last byte, whose record still reports the size its
    header declares and yields no activity beyond its count.  The reader
    never compares that size with the bytes that remain: [read_fragment]
    raises nothing, appends the incomplete candidate to [tc_data] and its
    group to [ta_data], and returns that candidate. *)
Theorem read_fragment_truncated (self : TCReader) (path : string)
    (valid : Fragment) (fuel : nat) :
  let fragment := get_frag (_h5_file (super self)) path in
  let tc_datum := new_TriggerCandidate fragment in
  fragment = removelast valid →
  fragment ≠ [] →
  trgdataformats.sizeof (new_TriggerCandidate valid) = length valid →
  trgdataformats.sizeof tc_datum = trgdataformats.sizeof (new_TriggerCandidate valid) →
  length (trgdataformats.inputs tc_datum) ≤ N.to_nat (trgdataformats.n_inputs tc_datum) →
  0 < fuel →
  ∃ group,
    read_fragment new_TriggerCandidate fuel self path
    = Return (extend self [np_tc_datum_of tc_datum] [group]) [np_tc_datum_of tc_datum]
    ∧ N.of_nat (length group) = trgdataformats.n_inputs tc_datum.
Proof.
  intros fragment tc_datum Hcut Hne Hvalid Hsize Hcount Hfuel.
  assert (length fragment < trgdataformats.sizeof tc_datum) as Hover.
  { rewrite Hsize, Hvalid. rewrite Hcut at 1. rewrite removelast_length.
    destruct valid; [|simpl; lia]. simpl in Hcut. congruence. }
  assert (0 < length fragment) as Hpos by (destruct fragment; [congruence|simpl; lia]).
  rewrite read_fragment_decoded. fold fragment. unfold get_data_size.
  replace (length fragment =? 0) with false by (symmetry; apply Nat.eqb_neq; lia).
  destruct fuel as [|fuel]; [lia|]. simpl. unfold get_data_size, get_data.
  replace (0 <? length fragment) with true by (symmetry; apply Nat.ltb_lt; lia).
  rewrite ?drop_0. fold fragment. fold tc_datum.
  rewrite store_tas_zeros. rewrite decide_True by exact Hcount.
  assert (decoded new_TriggerCandidate fuel fragment (trgdataformats.sizeof tc_datum)
          = ([], [], Done (trgdataformats.sizeof tc_datum))) as ->.
  { destruct fuel; simpl; unfold get_data_size;
      replace (trgdataformats.sizeof tc_datum <? length fragment) with false
        by (symmetry; apply Nat.ltb_ge; lia); reflexivity. }
  simpl. eexists. split; [reflexivity|].
  rewrite length_app, length_fmap, length_replicate. lia.
Qed.


(** C6, as the reader behaves: the declared version is copied into the row
    and looked at nowhere.  Replacing the versions the headers declare by
    any others changes the outcome of [read_fragment] in the stored versions
    only: the same call returns, raises or goes on, with the same rows. *)
Theorem read_fragment_ignores_version (f : N → N) (fuel : nat) (self : TCReader)
    (path : string) :
  (∀ view,
     tc_version (np_tc_datum_of (new_TriggerCandidate view))
     = trgdataformats.tcd_version (trgdataformats.data (new_TriggerCandidate view)))
  ∧ read_fragment (with_versions new_TriggerCandidate f) fuel (reader_map_version f self) path
    = outcome_map_version f (read_fragment new_TriggerCandidate fuel self path).
Proof.
  split; [reflexivity|].
  rewrite !read_fragment_decoded. simpl.
  destruct (_ =? 0); [reflexivity|].
  rewrite decoded_with_versions.
  destruct (decoded new_TriggerCandidate fuel _ 0) as [[tcs tas] [j|e|]]; simpl.
  - rewrite fmap_last. destruct (last tcs); simpl;
      rewrite reader_map_version_extend; reflexivity.
  - rewrite reader_map_version_extend. reflexivity.
  - reflexivity.
Qed.

End Unchecked.

(** ** The properties on the sample fragments *)

Lemma read_fragment_empty_witness :
  ∃ self',
    read_fragment Overlay.TriggerCandidate 0 Sample.reader "empty" = Return self' []
    ∧ tc_data self' = tc_data Sample.reader
    ∧ ta_data self' = ta_data Sample.reader
    ∧ _num_empty (super self') = _num_empty (super Sample.reader) + 1.
Proof.
  apply (read_fragment_empty Overlay.TriggerCandidate 0 Sample.reader "empty").
  reflexivity.
Defined.

Lemma scan_covers_fragment_witness :
  ∃ self' np_tc_datum,
    scan Overlay.TriggerCandidate 304 Sample.fragment12 Sample.reader 0 None
    = Return self' (get_data_size Sample.fragment12, np_tc_datum).
Proof.
  apply (scan_covers_fragment Overlay.TriggerCandidate Sample.fragment12).
  - apply (well_formedb_sound Overlay.TriggerCandidate 2). vm_compute. reflexivity.
  - vm_compute. lia.
Defined.

Lemma scan_terminates_witness :
  (∀ self byte_idx self' byte_idx' np_tc_datum,
     visited Overlay.TriggerCandidate Sample.fragment12 byte_idx →
     byte_idx < get_data_size Sample.fragment12 →
     scan_body Overlay.TriggerCandidate Sample.fragment12 self byte_idx
     = Next self' byte_idx' np_tc_datum →
     byte_idx < byte_idx')
  ∧ (∀ self fuel,
       get_data_size Sample.fragment12 ≤ fuel →
       scan Overlay.TriggerCandidate fuel Sample.fragment12 self 0 None ≠ OutOfFuel).
Proof.
  apply (scan_terminates Overlay.TriggerCandidate Sample.fragment12).
  apply Overlay_progresses.
Defined.

Lemma read_fragment_concat_witness :
  ∃ self12,
    read_fragment Overlay.TriggerCandidate 1 Sample.reader_one "two"
    = Return self12 [Sample.tc2]
    ∧ tc_data self12 = tc_data Sample.reader_one ++ tc_data Sample.reader_two
    ∧ ta_data self12 = ta_data Sample.reader_one ++ ta_data Sample.reader_two.
Proof.
  apply (read_fragment_concat Overlay.TriggerCandidate
           Sample.reader Sample.reader_one Sample.reader_two 1 1 "one" "two"
           [Sample.tc1] [Sample.tc2]).
  - reflexivity.
  - reflexivity.
  - vm_compute. reflexivity.
  - vm_compute. reflexivity.
Defined.

Lemma read_fragment_truncated_witness :
  ∃ group,
    read_fragment Overlay.TriggerCandidate 1 Sample.reader "truncated"
    = Return (extend Sample.reader
                [np_tc_datum_of (Overlay.TriggerCandidate Sample.truncated1)] [group])
             [np_tc_datum_of (Overlay.TriggerCandidate Sample.truncated1)]
    ∧ N.of_nat (length group)
      = trgdataformats.n_inputs (Overlay.TriggerCandidate Sample.truncated1).
Proof.
  apply (read_fragment_truncated Overlay.TriggerCandidate Sample.reader "truncated"
           Sample.fragment1 1).
  - reflexivity.
  - vm_compute. discriminate.
  - vm_compute. reflexivity.
  - vm_compute. reflexivity.
  - apply Overlay_iteration_bounded.
  - lia.
Defined.


(** C1 fails as stated: [fragment1] holds exactly one candidate; without
    its last byte, [read_fragment] does not raise but returns, and both
    sequences have grown by the incomplete candidate. *)
Lemma read_fragment_truncated_counterexample :
  well_formed Overlay.TriggerCandidate Sample.fragment1
  ∧ get_frag Sample.h5_file "truncated" = removelast Sample.fragment1
  ∧ read_fragment Overlay.TriggerCandidate 1 Sample.reader "truncated"
    = Return Sample.reader_one [Sample.tc1]
  ∧ tc_data Sample.reader_one ≠ tc_data Sample.reader
  ∧ ta_data Sample.reader_one ≠ ta_data Sample.reader.
Proof.
  split; [|split; [|split; [|split]]].
  - apply (well_formedb_sound Overlay.TriggerCandidate 1). vm_compute. reflexivity.
  - reflexivity.
  - vm_compute. reflexivity.
  - discriminate.
  - discriminate.
Qed.


(** C6 fails as stated: a header that declares version 65535 is decoded
    like any other, and the candidate is stored with that version. *)
Lemma unknown_version_counterexample :
  trgdataformats.tcd_version
    (trgdataformats.data (Overlay.TriggerCandidate Sample.fragment_odd)) = 65535%N
  ∧ read_fragment Overlay.TriggerCandidate 1 Sample.reader "odd"
    = Return (extend Sample.reader [Sample.tc_odd] [[]]) [Sample.tc_odd]
  ∧ tc_version Sample.tc_odd = 65535%N.
Proof.
  split; [|split].
  - vm_compute. reflexivity.
  - vm_compute. reflexivity.
  - reflexivity.
Qed.

(** ** Indexing the reader *)

Lemma np_index_Some (size : nat) (key : Z) (i : nat) :
  np_index size key = Some i ↔
    ((0 ≤ key < Z.of_nat size)%Z ∧ i = Z.to_nat key)
    ∨ ((- Z.of_nat size ≤ key < 0)%Z ∧ i = Z.to_nat (Z.of_nat size + key)).
Proof.
  unfold np_index.
  destruct (0 <=? key)%Z eqn:H0; [apply Z.leb_le in H0|apply Z.leb_gt in H0].
  - destruct (key <? Z.of_nat size)%Z eqn:H1;
      [apply Z.ltb_lt in H1|apply Z.ltb_ge in H1].
    + split; [intros [= <-]; left; split; [lia|reflexivity]|].
      intros [[_ ->]|[? _]]; [reflexivity|lia].
    + split; [discriminate|]. intros [[? _]|[? _]]; lia.
  - destruct (- Z.of_nat size <=? key)%Z eqn:H1;
      [apply Z.leb_le in H1|apply Z.leb_gt in H1].
    + split; [intros [= <-]; right; split; [lia|reflexivity]|].
      intros [[? _]|[_ ->]]; [lia|reflexivity].
    + split; [discriminate|]. intros [[? _]|[? _]]; lia.
Qed.

Lemma np_index_lt (size : nat) (key : Z) (i : nat) :
  np_index size key = Some i → i < size.
Proof. rewrite np_index_Some. lia. Qed.

Lemma np_index_None (size : nat) (key : Z) :
  np_index size key = None ↔ (key < - Z.of_nat size ∨ Z.of_nat size ≤ key)%Z.
Proof.
  unfold np_index.
  destruct (0 <=? key)%Z eqn:H0; [apply Z.leb_le in H0|apply Z.leb_gt in H0].
  - destruct (key <? Z.of_nat size)%Z eqn:H1;
      [apply Z.ltb_lt in H1|apply Z.ltb_ge in H1]; split; try discriminate; auto; lia.
  - destruct (- Z.of_nat size <=? key)%Z eqn:H1;
      [apply Z.leb_le in H1|apply Z.leb_gt in H1]; split; try discriminate; auto; lia.
Qed.

(** X1: after [reader[key] = value] succeeded, [reader[key]] reads [value]
    back; the number of candidates and the activity groups are as before,
    and so is every row that another key designates. *)
Theorem setitem_getitem (self self' : TCReader) (key : Z) (value : tc_dt) :
  __setitem__ self key value = Return self' () →
  __getitem__ self' key = inr value
  ∧ __len__ self' = __len__ self
  ∧ ta_data self' = ta_data self
  ∧ ∀ key',
      np_index (__len__ self) key' ≠ np_index (__len__ self) key →
      __getitem__ self' key' = __getitem__ self key'.
Proof.
  unfold __setitem__, __getitem__, __len__.
  destruct (np_index (length (tc_data self)) key) as [i|] eqn:Hkey; [|discriminate].
  intros [= <-]. simpl. rewrite length_insert, Hkey.
  apply np_index_lt in Hkey as Hlt.
  rewrite list_lookup_insert_eq by exact Hlt.
  repeat split. intros key' Hne.
  destruct (np_index (length (tc_data self)) key') as [j|]; [|reflexivity].
  rewrite list_lookup_insert_ne by congruence. reflexivity.
Qed.

(** X2: a key from [-len] up to [len - 1] reads a row and can be written; on
    any other key both [__getitem__] and [__setitem__] raise IndexError, and
    the reader is left as it was. *)
Theorem getitem_setitem_bounds (self : TCReader) (key : Z) (value : tc_dt) :
  ((- Z.of_nat (__len__ self) ≤ key < Z.of_nat (__len__ self))%Z →
     (∃ row, __getitem__ self key = inr row)
     ∧ ∃ self', __setitem__ self key value = Return self' ())
  ∧ ((key < - Z.of_nat (__len__ self) ∨ Z.of_nat (__len__ self) ≤ key)%Z →
     __getitem__ self key = inl IndexError
     ∧ __setitem__ self key value = Raise self IndexError).
Proof.
  unfold __setitem__, __getitem__, __len__. split.
  - intros Hin.
    destruct (np_index (length (tc_data self)) key) as [i|] eqn:Hkey.
    + apply np_index_lt in Hkey. apply lookup_lt_is_Some_2 in Hkey as [row ->]. eauto.
    + apply np_index_None in Hkey. lia.
  - intros Hout. apply np_index_None in Hout. rewrite Hout. split; reflexivity.
Qed.

(** X3: on a reader whose sequences are aligned, writing a row keeps them
    aligned exactly when the new row declares as many activities as the
    row it replaces. *)
Theorem setitem_alignment (self self' : TCReader) (key : Z) (old value : tc_dt) :
  aligned (tc_data self) (ta_data self) →
  __getitem__ self key = inr old →
  __setitem__ self key value = Return self' () →
  aligned (tc_data self') (ta_data self') ↔ num_tas value = num_tas old.
Proof.
  unfold __setitem__, __getitem__, aligned.
  destruct (np_index (length (tc_data self)) key) as [i|] eqn:Hkey; [|discriminate].
  destruct (tc_data self !! i) as [row|] eqn:Hrow; [|discriminate].
  intros Hal [= ->] [= <-]. simpl.
  apply np_index_lt in Hkey as Hlt.
  rewrite Forall2_same_length_lookup in Hal. destruct Hal as [Hlen Hal].
  assert (is_Some (ta_data self !! i)) as [group Hgroup]
    by (apply lookup_lt_is_Some_2; lia).
  pose proof (Hal i old group Hrow Hgroup) as Hold.
  rewrite Forall2_same_length_lookup, length_insert. split.
  - intros [_ Hal']. rewrite <- Hold. symmetry.
    apply (Hal' i value group); [|exact Hgroup].
    apply list_lookup_insert_eq. exact Hlt.
  - intros Hnum. split; [exact Hlen|]. intros j tc g Htc Hg.
    destruct (decide (i = j)) as [<-|Hne].
    + rewrite list_lookup_insert_eq in Htc by exact Hlt.
      injection Htc as <-. rewrite Hgroup in Hg. injection Hg as <-. congruence.
    + rewrite list_lookup_insert_ne in Htc by exact Hne. eauto.
Qed.

(** ** More on [read_fragment] *)

Section ReaderMore.

Variable new_TriggerCandidate : list byte → trgdataformats.TriggerCandidate.

(** A failed scan stopped between the two appends: it holds one candidate
    more than groups, and the failure is the store of a row too many. *)
Lemma decoded_failed_shape (fragment : Fragment) (fuel : nat) :
  ∀ byte_idx tcs tas e,
    decoded new_TriggerCandidate fuel fragment byte_idx = (tcs, tas, Failed e) →
    e = IndexError ∧ length tcs = S (length tas).
Proof.
  induction fuel as [|fuel IH]; intros byte_idx tcs tas e; simpl.
  - destruct (byte_idx <? _); discriminate.
  - destruct (byte_idx <? _); [|discriminate].
    rewrite store_tas_zeros.
    destruct (decide _).
    + destruct (decoded new_TriggerCandidate fuel fragment _) as [[tcs' tas'] e'] eqn:Hrest.
      intros [= <- <- ->]. apply IH in Hrest as [-> Hlen]. simpl. auto.
    + intros [= <- <- <-]. auto.
Qed.

Lemma decoded_done_shape (fragment : Fragment) (fuel : nat) :
  ∀ byte_idx tcs tas j,
    decoded new_TriggerCandidate fuel fragment byte_idx = (tcs, tas, Done j) →
    length tcs = length tas.
Proof.
  intros byte_idx tcs tas j H. apply decoded_aligned in H.
  eapply Forall2_length; eauto.
Qed.

(** Each candidate of a scan that progresses costs at least one byte. *)
Lemma decoded_count (fragment : Fragment) (fuel : nat) :
  progresses new_TriggerCandidate fragment →
  ∀ byte_idx,
    visited new_TriggerCandidate fragment byte_idx →
    length (decoded new_TriggerCandidate fuel fragment byte_idx).1.1
    ≤ get_data_size fragment - byte_idx.
Proof.
  intros Hp. induction fuel as [|fuel IH]; intros byte_idx Hvis; simpl.
  - destruct (byte_idx <? _); simpl; lia.
  - destruct (byte_idx <? _) eqn:Hlt; [|simpl; lia].
    apply Nat.ltb_lt in Hlt.
    pose proof (Hp byte_idx Hvis Hlt) as Hpos.
    destruct (store_tas _ _ _); [simpl; lia|].
    pose proof (IH _ (visited_next _ _ _ Hvis Hlt)) as Hrest.
    destruct (decoded new_TriggerCandidate fuel fragment _) as [[tcs' tas'] e'].
    simpl in *. lia.
Qed.

(** At a record of size zero that stores without fault, the scan stays. *)
Lemma decoded_stuck (fragment : Fragment) (byte_idx : nat) :
  byte_idx < get_data_size fragment →
  trgdataformats.sizeof (new_TriggerCandidate (get_data fragment byte_idx)) = 0 →
  length (trgdataformats.inputs (new_TriggerCandidate (get_data fragment byte_idx)))
    ≤ N.to_nat (trgdataformats.n_inputs (new_TriggerCandidate (get_data fragment byte_idx))) →
  ∀ fuel, (decoded new_TriggerCandidate fuel fragment byte_idx).2 = Unfinished.
Proof.
  intros Hlt Hzero Hcount. apply Nat.ltb_lt in Hlt.
  induction fuel as [|fuel IH]; simpl; rewrite Hlt; [reflexivity|].
  rewrite store_tas_zeros. rewrite decide_True by exact Hcount.
  rewrite Hzero, Nat.add_0_r.
  destruct (decoded new_TriggerCandidate fuel fragment byte_idx) as [[tcs' tas'] e'].
  exact IH.
Qed.

(** X4: when [read_fragment] returns from a fragment that is not empty,
    [reader[-1]] is the row of the array it returned. *)
Theorem read_fragment_getitem_last (fuel : nat) (self self' : TCReader) (path : string)
    (value : list tc_dt) :
  get_data_size (get_frag (_h5_file (super self)) path) ≠ 0 →
  read_fragment new_TriggerCandidate fuel self path = Return self' value →
  ∃ tc, value = [tc] ∧ __getitem__ self' (-1) = inr tc.
Proof.
  intros Hsize. rewrite read_fragment_decoded.
  apply Nat.eqb_neq in Hsize. rewrite Hsize.
  destruct (decoded _ _ _ _) as [[tcs tas] [j|e|]]; try discriminate.
  destruct (last tcs) as [tc|] eqn:Hlast; [|discriminate].
  intros [= <- <-]. exists tc. split; [reflexivity|].
  apply last_Some in Hlast as [tcs' ->].
  unfold __getitem__. simpl.
  set (rows := tc_data self ++ tcs' ++ [tc]).
  assert (length rows = S (length (tc_data self ++ tcs'))) as Hlen.
  { unfold rows. rewrite app_assoc, !length_app. simpl. lia. }
  assert (np_index (length rows) (-1) = Some (length (tc_data self ++ tcs'))) as ->.
  { apply np_index_Some. right. split; lia. }
  unfold rows. rewrite app_assoc.
  rewrite lookup_app_r by lia. rewrite Nat.sub_diag. reflexivity.
Qed.

(** X6: however [read_fragment] ends, the rows and groups the reader held
    are still there, in front and unchanged, and the file and the verbosity
    are the same; the count of empty fragments moves for an empty fragment
    only. *)
Theorem read_fragment_keeps (fuel : nat) (self self' : TCReader) (path : string) :
  (∃ value, read_fragment new_TriggerCandidate fuel self path = Return self' value)
  ∨ (∃ e, read_fragment new_TriggerCandidate fuel self path = Raise self' e) →
  tc_data self `prefix_of` tc_data self'
  ∧ ta_data self `prefix_of` ta_data self'
  ∧ _h5_file (super self') = _h5_file (super self)
  ∧ _verbosity (super self') = _verbosity (super self)
  ∧ (get_data_size (get_frag (_h5_file (super self)) path) ≠ 0 →
     _num_empty (super self') = _num_empty (super self)).
Proof.
  rewrite read_fragment_decoded.
  destruct (_ =? 0) eqn:Hsize.
  - apply Nat.eqb_eq in Hsize.
    intros [[value [= <- _]]|[e [=]]]. simpl. repeat split; try reflexivity. congruence.
  - assert (∀ tcs tas,
              tc_data self `prefix_of` tc_data (extend self tcs tas)
              ∧ ta_data self `prefix_of` ta_data (extend self tcs tas)
              ∧ _h5_file (super (extend self tcs tas)) = _h5_file (super self)
              ∧ _verbosity (super (extend self tcs tas)) = _verbosity (super self)
              ∧ (get_data_size (get_frag (_h5_file (super self)) path) ≠ 0 →
                 _num_empty (super (extend self tcs tas)) = _num_empty (super self))) as Hext.
    { intros tcs tas. simpl. repeat split; try apply prefix_app_r; reflexivity. }
    destruct (decoded _ _ _ _) as [[tcs tas] [j|e'|]].
    + destruct (last tcs).
      * intros [[value [= <- _]]|[e [=]]]. apply Hext.
      * intros [[value [=]]|[e [= <- _]]]. apply Hext.
    + intros [[value [=]]|[e [= <- _]]]. apply Hext.
    + intros [[value [=]]|[e [=]]].
Qed.

(** X7: at a record that reports a size of zero and stores without fault,
    the loop never ends: whatever the fuel, it is still running. *)
Theorem scan_stuck (fragment : Fragment) (byte_idx : nat) :
  byte_idx < get_data_size fragment →
  trgdataformats.sizeof (new_TriggerCandidate (get_data fragment byte_idx)) = 0 →
  length (trgdataformats.inputs (new_TriggerCandidate (get_data fragment byte_idx)))
    ≤ N.to_nat (trgdataformats.n_inputs (new_TriggerCandidate (get_data fragment byte_idx))) →
  ∀ fuel self np_tc_datum,
    scan new_TriggerCandidate fuel fragment self byte_idx np_tc_datum = OutOfFuel.
Proof.
  intros Hlt Hzero Hcount fuel self last.
  rewrite scan_decoded.
  pose proof (decoded_stuck fragment byte_idx Hlt Hzero Hcount fuel) as Hstuck.
  destruct (decoded _ _ _ _) as [[tcs tas] e]. simpl in Hstuck. rewrite Hstuck.
  reflexivity.
Qed.

(** X8: when every record the loop decodes reports a size that is not zero,
    one call of [read_fragment] appends at most as many candidates as the
    fragment has bytes, whether it returns or raises. *)
Theorem read_fragment_count (fuel : nat) (self self' : TCReader) (path : string) :
  let fragment := get_frag (_h5_file (super self)) path in
  progresses new_TriggerCandidate fragment →
  (∃ value, read_fragment new_TriggerCandidate fuel self path = Return self' value)
  ∨ (∃ e, read_fragment new_TriggerCandidate fuel self path = Raise self' e) →
  length (tc_data self') ≤ length (tc_data self) + get_data_size fragment.
Proof.
  intros fragment Hp. rewrite read_fragment_decoded. fold fragment.
  destruct (_ =? 0).
  - intros [[value [= <- _]]|[e [=]]]. simpl. lia.
  - pose proof (decoded_count fragment fuel Hp 0 (visited_first _ _)) as Hcount.
    destruct (decoded _ _ _ _) as [[tcs tas] [j|e'|]]; simpl in Hcount.
    + destruct (last tcs).
      * intros [[value [= <- _]]|[e [=]]]. simpl. rewrite length_app. lia.
      * intros [[value [=]]|[e [= <- _]]]. simpl. rewrite length_app. lia.
    + intros [[value [=]]|[e [= <- _]]]. simpl. rewrite length_app. lia.
    + intros [[value [=]]|[e [=]]].
Qed.

End ReaderMore.

(** ** Strings *)

#[local] Arguments String.append !_ _ / : simpl nomatch.

Lemma append_assoc (a b c : string) : (a +:+ b) +:+ c = a +:+ (b +:+ c).
Proof. induction a as [|x a IH]; simpl; [reflexivity|]. rewrite IH. reflexivity. Qed.

Lemma append_length (a b : string) :
  String.length (a +:+ b) = String.length a + String.length b.
Proof. induction a as [|x a IH]; simpl; [reflexivity|]. rewrite IH. reflexivity. Qed.

Lemma prefix_spec (a : string) :
  ∀ s, String.prefix a s = true ↔ ∃ post, s = a +:+ post.
Proof.
  induction a as [|x a IH]; intros s.
  - destruct s; simpl; split; eauto.
  - destruct s as [|y s]; simpl.
    + split; [discriminate|]. intros [post [=]].
    + destruct (Ascii.ascii_dec x y) as [<-|Hne].
      * rewrite IH. split; intros [post H]; exists post; congruence.
      * split; [discriminate|]. intros [post [= ? _]]. congruence.
Qed.

(** [needle in s] holds exactly when [s] is some text, then [needle], then
    some text. *)
Lemma str_in_spec (needle : string) :
  ∀ s, str_in needle s = true ↔ ∃ pre post, s = pre +:+ needle +:+ post.
Proof.
  induction s as [|c s IH]; cbn [str_in].
  - rewrite orb_false_r, prefix_spec. split.
    + intros [post H]. exists EmptyString, post. exact H.
    + intros [[|c pre] [post H]]; [eauto|discriminate].
  - rewrite orb_true_iff, prefix_spec, IH. split.
    + intros [[post H]|(pre & post & H)].
      * exists EmptyString, post. exact H.
      * exists (String c pre), post. simpl. congruence.
    + intros ([|c' pre] & post & H).
      * left. eauto.
      * right. injection H as _ H. eauto.
Qed.

(** ** Filtering the fragment paths *)

Lemma filter_fragment_paths_loop_eq (paths : list string) :
  ∀ fragment_paths,
    filter_fragment_paths_loop paths fragment_paths
    = fragment_paths ++ filter (λ path, str_in "Trigger_Candidate" path = true) paths.
Proof.
  induction paths as [|path paths IH]; intros acc; cbn [filter_fragment_paths_loop].
  - rewrite filter_nil, app_nil_r. reflexivity.
  - rewrite filter_cons. destruct (str_in "Trigger_Candidate" path) eqn:Hin.
    + rewrite decide_True by reflexivity. rewrite IH, <- app_assoc. reflexivity.
    + rewrite decide_False by discriminate. apply IH.
Qed.

Lemma filter_fragment_paths_eq (paths : list string) :
  _filter_fragment_paths paths
  = filter (λ path, str_in "Trigger_Candidate" path = true) paths.
Proof. unfold _filter_fragment_paths. rewrite filter_fragment_paths_loop_eq. reflexivity. Qed.

(** X9: [_filter_fragment_paths] keeps the paths in the order they had, and
    keeps a path exactly when the text [Trigger_Candidate] occurs in it. *)
Theorem filter_fragment_paths_spec (paths : list string) :
  _filter_fragment_paths paths `sublist_of` paths
  ∧ ∀ path,
      path ∈ _filter_fragment_paths paths
      ↔ path ∈ paths ∧ ∃ pre post, path = pre +:+ "Trigger_Candidate" +:+ post.
Proof.
  rewrite filter_fragment_paths_eq. split.
  - apply sublist_filter.
  - intros path. rewrite list_elem_of_filter, str_in_spec. tauto.
Qed.

(** X10: filtering the fragment paths a second time changes nothing. *)
Theorem filter_fragment_paths_idempotent (paths : list string) :
  _filter_fragment_paths (_filter_fragment_paths paths) = _filter_fragment_paths paths.
Proof.
  rewrite !filter_fragment_paths_eq.
  induction paths as [|path paths IH]; [reflexivity|].
  rewrite filter_cons. destruct (str_in "Trigger_Candidate" path) eqn:Hin.
  - rewrite decide_True by reflexivity. rewrite filter_cons, Hin.
    rewrite decide_True by reflexivity. rewrite IH. reflexivity.
  - rewrite decide_False by discriminate. exact IH.
Qed.

(** ** Choosing a save name *)

Section SaveNames.

Import event_display.

Variable os_path_exists : string → bool.

Lemma find_save_name_loop_zoom (run_id subrun_id trg_record_id : Z) (fuel : nat) :
  let zoom := save_name_of run_id subrun_id trg_record_id +:+ "-zoom" in
  find_save_name_loop os_path_exists fuel run_id subrun_id trg_record_id false zoom
  = if os_path_exists (zoom +:+ ".pdf") then None else Some zoom.
Proof.
  intros zoom. induction fuel as [|fuel IH]; cbn [find_save_name_loop negb andb];
    fold zoom; destruct (os_path_exists (zoom +:+ ".pdf")) eqn:Hzoom; try reflexivity.
  rewrite IH. reflexivity.
Qed.

(** X11: [find_save_name] returns the plain name when it may overwrite or
    when no PDF of that name exists; when it may not overwrite and the PDF
    exists, it returns the name with [-zoom] appended, provided no PDF of
    that second name exists. *)
Theorem find_save_name_result (run_id subrun_id trg_record_id : Z) (overwrite : bool) :
  let save_name := save_name_of run_id subrun_id trg_record_id in
  (overwrite = true ∨ os_path_exists (save_name +:+ ".pdf") = false →
     ∀ fuel,
       find_save_name os_path_exists fuel run_id subrun_id trg_record_id overwrite
       = Some save_name)
  ∧ (overwrite = false →
     os_path_exists (save_name +:+ ".pdf") = true →
     os_path_exists ((save_name +:+ "-zoom") +:+ ".pdf") = false →
     ∀ fuel, 0 < fuel →
       find_save_name os_path_exists fuel run_id subrun_id trg_record_id overwrite
       = Some (save_name +:+ "-zoom")).
Proof.
  intros save_name. unfold find_save_name. fold save_name. split.
  - intros Hfree fuel.
    destruct fuel; cbn [find_save_name_loop];
      destruct Hfree as [-> | ->]; rewrite ?andb_false_r; reflexivity.
  - intros -> Hpdf Hzoom [|fuel] Hfuel; [lia|].
    cbn [find_save_name_loop negb andb]. rewrite Hpdf.
    rewrite find_save_name_loop_zoom. fold save_name. rewrite Hzoom. reflexivity.
Qed.

(** X12: when [find_save_name] may not overwrite and both the PDF of the
    plain name and the PDF of the [-zoom] name exist, its loop never ends:
    each pass picks the [-zoom] name again. *)
Theorem find_save_name_never_ends (run_id subrun_id trg_record_id : Z) :
  let save_name := save_name_of run_id subrun_id trg_record_id in
  os_path_exists (save_name +:+ ".pdf") = true →
  os_path_exists ((save_name +:+ "-zoom") +:+ ".pdf") = true →
  ∀ fuel, find_save_name os_path_exists fuel run_id subrun_id trg_record_id false = None.
Proof.
  intros save_name Hpdf Hzoom fuel. unfold find_save_name. fold save_name.
  destruct fuel as [|fuel]; cbn [find_save_name_loop negb andb]; rewrite Hpdf;
    [reflexivity|].
  rewrite find_save_name_loop_zoom. fold save_name. rewrite Hzoom. reflexivity.
Qed.

(** X13: a name that [find_save_name] returns is the plain name or the
    [-zoom] name, and unless overwriting was asked for, no PDF of the
    returned name exists. *)
Theorem find_save_name_fresh (fuel : nat) (run_id subrun_id trg_record_id : Z)
    (overwrite : bool) (name : string) :
  find_save_name os_path_exists fuel run_id subrun_id trg_record_id overwrite = Some name →
  (name = save_name_of run_id subrun_id trg_record_id
   ∨ name = save_name_of run_id subrun_id trg_record_id +:+ "-zoom")
  ∧ (overwrite = false → os_path_exists (name +:+ ".pdf") = false).
Proof.
  unfold find_save_name.
  set (save_name := save_name_of run_id subrun_id trg_record_id).
  assert (∀ fuel current,
            current = save_name ∨ current = save_name +:+ "-zoom" →
            find_save_name_loop os_path_exists fuel run_id subrun_id trg_record_id
              overwrite current = Some name →
            (name = save_name ∨ name = save_name +:+ "-zoom")
            ∧ (overwrite = false → os_path_exists (name +:+ ".pdf") = false)) as Hloop.
  { clear fuel. induction fuel as [|fuel IH]; intros current Hcur;
      cbn [find_save_name_loop]; fold save_name.
    - destruct overwrite; cbn [negb andb].
      + intros [= <-]. split; [exact Hcur|discriminate].
      + destruct (os_path_exists (current +:+ ".pdf")) eqn:Hex; [discriminate|].
        intros [= <-]. split; [exact Hcur|auto].
    - destruct overwrite; cbn [negb andb].
      + intros [= <-]. split; [exact Hcur|discriminate].
      + destruct (os_path_exists (current +:+ ".pdf")) eqn:Hex.
        * apply IH. right. reflexivity.
        * intros [= <-]. split; [exact Hcur|auto]. }
  apply Hloop. left. reflexivity.
Qed.

End SaveNames.

(** ** Run and subrun of a file path *)

Section RunSubrun.

Import event_display.

Lemma re_literal_spec (lit : string) :
  ∀ s rest, re_literal lit s = Some rest ↔ s = lit +:+ rest.
Proof.
  induction lit as [|a lit IH]; intros s rest; simpl.
  - split; [intros [= ->]; reflexivity|intros ->; reflexivity].
  - destruct s as [|b s].
    + split; discriminate.
    + destruct (Ascii.eqb a b) eqn:Hab.
      * apply Ascii.eqb_eq in Hab as ->. rewrite IH. split; congruence.
      * apply Ascii.eqb_neq in Hab. split; [discriminate|]. intros [= ? _]. congruence.
Qed.

Lemma re_digits_spec (n : nat) :
  ∀ s ds rest,
    re_digits n s = Some (ds, rest)
    ↔ s = ds +:+ rest ∧ String.length ds = n ∧ all_digits ds = true.
Proof.
  induction n as [|n IH]; intros s ds rest; simpl.
  - split.
    + intros [= <- <-]. auto.
    + intros (-> & Hlen & _). destruct ds; [reflexivity|discriminate].
  - destruct s as [|c s].
    + split; [discriminate|]. intros (H & Hlen & _).
      destruct ds; discriminate.
    + destruct (isdigit c) eqn:Hc.
      * destruct (re_digits n s) as [[ds' rest']|] eqn:Hrec.
        -- apply IH in Hrec as (-> & Hlen' & Hall'). split.
           ++ intros [= <- <-]. simpl. rewrite Hc, Hall', Hlen'. auto.
           ++ intros (H & Hlen & Hall). destruct ds as [|d ds]; [discriminate|].
              simpl in *. injection H as <- H. injection Hlen as Hlen.
              apply andb_true_iff in Hall as [_ Hall].
              assert (re_digits n (ds' +:+ rest') = Some (ds, rest)) as Hagain
                by (apply IH; auto).
              assert (re_digits n (ds' +:+ rest') = Some (ds', rest')) as Hfirst
                by (apply IH; auto).
              congruence.
        -- split; [discriminate|]. intros (H & Hlen & Hall).
           destruct ds as [|d ds]; [discriminate|].
           simpl in *. injection H as <- H. injection Hlen as Hlen.
           apply andb_true_iff in Hall as [_ Hall].
           assert (re_digits n s = Some (ds, rest)) as Hagain by (apply IH; auto).
           congruence.
      * split; [discriminate|]. intros (H & Hlen & Hall).
        destruct ds as [|d ds]; [discriminate|].
        simpl in *. injection H as <- H.
        apply andb_true_iff in Hall as [Hd _]. congruence.
Qed.

Lemma re_match_here_spec (s run subrun : string) :
  re_match_here s = Some (run, subrun) ↔ ∃ post, run_subrun_at s EmptyString run subrun post.
Proof.
  unfold re_match_here, run_subrun_at. split.
  - destruct (re_literal "run" s) as [s1|] eqn:H1; [|discriminate].
    destruct (re_digits 6 s1) as [[run' s2]|] eqn:H2; [|discriminate].
    destruct (re_literal "_" s2) as [s3|] eqn:H3; [|discriminate].
    destruct (re_digits 4 s3) as [[subrun' post]|] eqn:H4; [|discriminate].
    intros [= <- <-].
    apply re_literal_spec in H1, H3. apply re_digits_spec in H2, H4.
    destruct H2 as (-> & ? & ?), H4 as (-> & ? & ?). subst.
    exists post. auto.
  - intros (post & -> & Hlen & Hall & Hlen' & Hall').
    assert (re_literal "run" ("" +:+ "run" +:+ run +:+ "_" +:+ subrun +:+ post)
            = Some (run +:+ "_" +:+ subrun +:+ post)) as ->
      by (apply re_literal_spec; reflexivity).
    assert (re_digits 6 (run +:+ "_" +:+ subrun +:+ post)
            = Some (run, "_" +:+ subrun +:+ post)) as ->
      by (apply re_digits_spec; auto).
    assert (re_literal "_" ("_" +:+ subrun +:+ post) = Some (subrun +:+ post)) as ->
      by (apply re_literal_spec; reflexivity).
    assert (re_digits 4 (subrun +:+ post) = Some (subrun, post)) as ->
      by (apply re_digits_spec; auto).
    reflexivity.
Qed.

Lemma run_subrun_at_cons (c : ascii) (s pre run subrun post : string) :
  run_subrun_at (String c s) (String c pre) run subrun post
  ↔ run_subrun_at s pre run subrun post.
Proof.
  unfold run_subrun_at. simpl. split.
  - intros (H & ?). injection H as H. auto.
  - intros (-> & ?). auto.
Qed.

Lemma run_subrun_at_head (c : ascii) (s pre run subrun post : string) :
  run_subrun_at (String c s) pre run subrun post →
  (pre = EmptyString)
  ∨ ∃ pre', pre = String c pre' ∧ run_subrun_at s pre' run subrun post.
Proof.
  destruct pre as [|c' pre']; [auto|]. intros H. right.
  assert (c' = c) as -> by (destruct H as [H _]; simpl in H; congruence).
  exists pre'. split; [reflexivity|].
  exact (proj1 (run_subrun_at_cons c s pre' run subrun post) H).
Qed.

(** The search finds the leftmost place the pattern matches at. *)
Lemma re_search_Some (s : string) :
  ∀ run subrun,
    re_search s = Some (run, subrun) →
    ∃ pre post,
      run_subrun_at s pre run subrun post
      ∧ ∀ pre' run' subrun' post',
          run_subrun_at s pre' run' subrun' post' →
          String.length pre ≤ String.length pre'.
Proof.
  induction s as [|c s IH]; intros run subrun; cbn [re_search].
  - destruct (re_match_here "") as [[r sr]|] eqn:Hhere; [|discriminate].
    intros [= -> ->]. apply re_match_here_spec in Hhere as [post Hat].
    exists EmptyString, post. split; [exact Hat|]. intros; simpl; lia.
  - destruct (re_match_here (String c s)) as [[r sr]|] eqn:Hhere.
    + intros [= -> ->]. apply re_match_here_spec in Hhere as [post Hat].
      exists EmptyString, post. split; [exact Hat|]. intros; simpl; lia.
    + intros Hrec. apply IH in Hrec as (pre & post & Hat & Hleft).
      exists (String c pre), post. split; [apply run_subrun_at_cons; exact Hat|].
      intros pre' run' subrun' post' Hat'.
      pose proof (run_subrun_at_head _ _ _ _ _ _ Hat') as [-> | (pre'' & -> & Hat'')].
      * assert (re_match_here (String c s) = Some (run', subrun')) as Hyes
          by (apply (proj2 (re_match_here_spec _ _ _)); eauto).
        congruence.
      * simpl. apply Hleft in Hat''. lia.
Qed.

Lemma re_search_None (s : string) :
  re_search s = None →
  ∀ pre run subrun post, ¬ run_subrun_at s pre run subrun post.
Proof.
  induction s as [|c s IH]; cbn [re_search].
  - destruct (re_match_here "") as [[r sr]|] eqn:Hhere; [discriminate|].
    intros _ pre run subrun post Hat.
    destruct pre as [|c' pre]; [|destruct Hat as [Hat _]; discriminate].
    assert (re_match_here "" = Some (run, subrun)) as Hyes
      by (apply (proj2 (re_match_here_spec _ _ _)); eauto).
    congruence.
  - destruct (re_match_here (String c s)) as [[r sr]|] eqn:Hhere; [discriminate|].
    intros Hrec pre run subrun post Hat.
    pose proof (run_subrun_at_head _ _ _ _ _ _ Hat) as [-> | (pre' & -> & Hat')].
    + assert (re_match_here (String c s) = Some (run, subrun)) as Hyes
        by (apply (proj2 (re_match_here_spec _ _ _)); eauto).
      congruence.
    + eapply IH; eauto.
Qed.

End RunSubrun.

(** ** Selecting the files of a run and subrun *)

Section SelectFiles.

Import event_display.

Lemma isdigit_value (c : ascii) : isdigit c = true → (0 ≤ digit_value c ≤ 9)%Z.
Proof.
  unfold isdigit, digit_value. rewrite andb_true_iff, !Nat.leb_le. lia.
Qed.

(** A string of digits reads as a number below the power of ten of its
    length. *)
Lemma int_digits_bounds (s : string) :
  ∀ acc,
    (0 ≤ acc)%Z →
    all_digits s = true →
    (acc * 10 ^ Z.of_nat (String.length s) ≤ int_digits acc s
     < (acc + 1) * 10 ^ Z.of_nat (String.length s))%Z.
Proof.
  induction s as [|c s IH]; intros acc Hacc; cbn [all_digits int_digits String.length].
  - intros _. simpl. lia.
  - rewrite andb_true_iff. intros [Hc Hs]. apply isdigit_value in Hc.
    specialize (IH (10 * acc + digit_value c)%Z ltac:(lia) Hs).
    rewrite Nat2Z.inj_succ, Z.pow_succ_r by lia.
    assert (0 < 10 ^ Z.of_nat (String.length s))%Z by (apply Z.pow_pos_nonneg; lia).
    nia.
Qed.

Lemma extract_run_subrun_int (file_path run subrun : string) :
  extract_run_subrun file_path = (Some run, Some subrun) →
  int (Some run) = inr (int_digits 0 run)
  ∧ int (Some subrun) = inr (int_digits 0 subrun)
  ∧ (0 ≤ int_digits 0 run < 1000000)%Z
  ∧ (0 ≤ int_digits 0 subrun < 10000)%Z.
Proof.
  unfold extract_run_subrun.
  destruct (re_search file_path) as [[r sr]|] eqn:Hsearch; [|discriminate].
  intros [= <- <-].
  apply re_search_Some in Hsearch as (pre & post & Hat & _).
  destruct Hat as (_ & Hlen & Hall & Hlen' & Hall').
  pose proof (int_digits_bounds r 0 ltac:(lia) Hall) as Hr.
  pose proof (int_digits_bounds sr 0 ltac:(lia) Hall') as Hsr.
  rewrite Hlen in Hr. rewrite Hlen' in Hsr.
  unfold int. rewrite Hall, Hall', Hlen, Hlen'. simpl.
  change (10 ^ Z.of_nat 6)%Z with 1000000%Z in Hr.
  change (10 ^ Z.of_nat 4)%Z with 10000%Z in Hsr.
  repeat split; lia.
Qed.

Lemma select_file_paths_loop_eq (desired_run desired_subrun : Z) (filelist : list string) :
  ∀ filtered_paths,
    select_file_paths_loop filelist desired_run desired_subrun filtered_paths
    = filtered_paths
      ++ filter (λ p, names_run_subrun desired_run desired_subrun p = true) filelist.
Proof.
  induction filelist as [|file_path filelist IH]; intros acc;
    cbn [select_file_paths_loop].
  - rewrite filter_nil, app_nil_r. reflexivity.
  - rewrite filter_cons.
    pose proof (eq_refl (names_run_subrun desired_run desired_subrun file_path)) as Hn.
    unfold names_run_subrun at 2 in Hn.
    destruct (extract_run_subrun file_path) as [[run|] [subrun|]] eqn:Hex.
    + apply extract_run_subrun_int in Hex as (-> & -> & _).
      destruct ((int_digits 0 run =? desired_run)%Z
                && (int_digits 0 subrun =? desired_subrun)%Z).
      * rewrite decide_True by exact Hn. rewrite IH, <- app_assoc. reflexivity.
      * rewrite decide_False by congruence. apply IH.
    + exfalso. unfold extract_run_subrun in Hex.
      destruct (re_search file_path) as [[? ?]|]; discriminate.
    + exfalso. unfold extract_run_subrun in Hex.
      destruct (re_search file_path) as [[? ?]|]; discriminate.
    + simpl. rewrite decide_False by congruence. apply IH.
Qed.

(** X17: the pattern holds six digits for the run and four for the subrun,
    so for a desired run outside 0..999999 or a desired subrun outside
    0..9999 [select_file_paths] selects nothing, whatever the list. *)
Theorem select_file_paths_out_of_range (filelist : list string)
    (desired_run desired_subrun : Z) :
  (desired_run < 0 ∨ 1000000 ≤ desired_run
   ∨ desired_subrun < 0 ∨ 10000 ≤ desired_subrun)%Z →
  select_file_paths filelist desired_run desired_subrun = [].
Proof.
  intros Hout. unfold select_file_paths. rewrite select_file_paths_loop_eq. simpl.
  induction filelist as [|file_path filelist IH]; [reflexivity|].
  rewrite filter_cons. rewrite decide_False; [exact IH|].
  unfold names_run_subrun.
  destruct (extract_run_subrun file_path) as [[run|] [subrun|]] eqn:Hex; try discriminate.
  apply extract_run_subrun_int in Hex as (_ & _ & Hrun & Hsubrun).
  rewrite andb_true_iff, !Z.eqb_eq. lia.
Qed.

(** X18: of two files, one of dataflow 0 and one not, the first is given
    the even trigger records and the second the odd ones; every record goes
    to exactly one of the two, and their order is kept. *)
Theorem filtered_trg_records_split (file0 file1 : string) (trg_records : list Z) :
  str_in "dataflow0" file0 = true →
  str_in "dataflow0" file1 = false →
  filtered_trg_records file0 trg_records `sublist_of` trg_records
  ∧ filtered_trg_records file1 trg_records `sublist_of` trg_records
  ∧ (∀ trgID, trgID ∈ filtered_trg_records file0 trg_records
              ↔ trgID ∈ trg_records ∧ (trgID mod 2 = 0)%Z)
  ∧ (∀ trgID, trgID ∈ filtered_trg_records file1 trg_records
              ↔ trgID ∈ trg_records ∧ (trgID mod 2 = 1)%Z)
  ∧ filtered_trg_records file0 trg_records ++ filtered_trg_records file1 trg_records
    ≡ₚ trg_records.
Proof.
  intros H0 H1. unfold filtered_trg_records. rewrite H0, H1.
  split; [apply sublist_filter|]. split; [apply sublist_filter|].
  split; [|split].
  - intros trgID. rewrite list_elem_of_filter, Z.eqb_eq. tauto.
  - intros trgID. rewrite list_elem_of_filter, Z.eqb_neq.
    pose proof (Z.mod_pos_bound trgID 2 ltac:(lia)). split; intros [? ?]; split; auto; lia.
  - induction trg_records as [|trgID trg_records IH]; [reflexivity|].
    rewrite !filter_cons. destruct (trgID mod 2 =? 0)%Z.
    + rewrite decide_True by reflexivity. rewrite decide_False by discriminate.
      simpl. rewrite IH. reflexivity.
    + rewrite decide_False by discriminate. rewrite decide_True by reflexivity.
      rewrite <- Permutation_middle. rewrite IH. reflexivity.
Qed.

End SelectFiles.

(** ** Matching trigger records to spills *)

Section SpillFacts.

Variables cell float columns : Type.
Variable div_1000 : cell → float.
Variable mul_tick_to_sec_scale : cell → float.
Variable fadd : float → float → float.
Variable fle : float → float → bool.
Variable spill_duration : float.

Local Abbreviation row_t := (spill.trig_record float columns).
Local Abbreviation assign_one := (spill.assign_tps_spill_ON fadd fle spill_duration).
Local Abbreviation assign_all := (spill.assign_all fadd fle spill_duration).
Local Abbreviation in_spill :=
  (spill.in_spill div_1000 mul_tick_to_sec_scale fadd fle spill_duration).

(** The loop over the spills, row by row: a row is switched to ON when one
    of the spills holds it, and is otherwise left as it was. *)
Lemma assign_all_rows (time_spill : list float) :
  ∀ trig_Records : list row_t,
    assign_all time_spill trig_Records
    = (λ row : row_t,
         if existsb (λ time_ON,
                       fle time_ON (spill.Timestamp row)
                       && fle (spill.Timestamp row) (fadd time_ON spill_duration))
                    time_spill
         then spill.mk_trig_record (spill.Timestamp row) "ON" (spill.others row)
         else row) <$> trig_Records.
Proof.
  induction time_spill as [|time_ON time_spill IH]; intros trig_Records;
    cbn [spill.assign_all existsb].
  - induction trig_Records as [|row rows IHrows]; [reflexivity|].
    rewrite fmap_cons, <- IHrows. reflexivity.
  - rewrite IH. unfold spill.assign_tps_spill_ON. rewrite <- list_fmap_compose.
    apply list_fmap_ext. intros _ row _. simpl.
    destruct (fle time_ON (spill.Timestamp row)
              && fle (spill.Timestamp row) (fadd time_ON spill_duration)); simpl.
    + destruct (existsb _ time_spill); reflexivity.
    + reflexivity.
Qed.

(** X19: [spill_mode_matching] returns the trigger records in their order,
    one for one, with the time stamp scaled and the other columns as read;
    a record is marked ON exactly when its scaled time stamp lies, bounds
    included, between the start of some spill and that start plus the spill
    duration, and is marked OFF otherwise. *)
Theorem spill_mode_matching_rows (spill_df : list cell)
    (trig_Records : list (cell * columns)) :
  let result :=
    spill.spill_mode_matching div_1000 mul_tick_to_sec_scale fadd fle spill_duration
      spill_df trig_Records in
  length result = length trig_Records
  ∧ ∀ i timestamp cols,
      trig_Records !! i = Some (timestamp, cols) →
      ∃ row,
        result !! i = Some row
        ∧ spill.Timestamp row = mul_tick_to_sec_scale timestamp
        ∧ spill.others row = cols
        ∧ spill.spill_mode row
          = if existsb (λ clock, in_spill clock timestamp) spill_df then "ON" else "OFF".
Proof.
  intros result. unfold result, spill.spill_mode_matching.
  rewrite assign_all_rows. split.
  - rewrite !length_fmap. reflexivity.
  - intros i timestamp cols Hi.
    rewrite !list_lookup_fmap, Hi. simpl. eexists. split; [reflexivity|].
    assert (existsb
              (λ time_ON,
                 fle time_ON (mul_tick_to_sec_scale timestamp)
                 && fle (mul_tick_to_sec_scale timestamp) (fadd time_ON spill_duration))
              (div_1000 <$> spill_df)
            = existsb (λ clock, in_spill clock timestamp) spill_df) as ->.
    { induction spill_df as [|clock clocks IH]; [reflexivity|].
      rewrite fmap_cons. cbn [existsb]. rewrite IH. reflexivity. }
    destruct (existsb _ spill_df); simpl; auto.
Qed.

End SpillFacts.

(** ** The further properties on samples *)

Lemma setitem_getitem_witness :
  __getitem__ (set_tc_data Sample.reader_both [Sample.tc1; Sample.tc_odd]) (-1)
  = inr Sample.tc_odd
  ∧ __len__ (set_tc_data Sample.reader_both [Sample.tc1; Sample.tc_odd])
    = __len__ Sample.reader_both
  ∧ ta_data (set_tc_data Sample.reader_both [Sample.tc1; Sample.tc_odd])
    = ta_data Sample.reader_both
  ∧ ∀ key',
      np_index (__len__ Sample.reader_both) key' ≠ np_index (__len__ Sample.reader_both) (-1) →
      __getitem__ (set_tc_data Sample.reader_both [Sample.tc1; Sample.tc_odd]) key'
      = __getitem__ Sample.reader_both key'.
Proof.
  apply (setitem_getitem Sample.reader_both
           (set_tc_data Sample.reader_both [Sample.tc1; Sample.tc_odd]) (-1) Sample.tc_odd).
  reflexivity.
Defined.

Lemma getitem_setitem_bounds_witness :
  __getitem__ Sample.reader_both 2 = inl IndexError
  ∧ __setitem__ Sample.reader_both 2 Sample.tc_odd = Raise Sample.reader_both IndexError.
Proof.
  apply (proj2 (getitem_setitem_bounds Sample.reader_both 2 Sample.tc_odd)).
  right. vm_compute. discriminate.
Defined.

Lemma setitem_alignment_witness :
  aligned (tc_data (set_tc_data Sample.reader_both [Sample.tc2; Sample.tc2]))
          (ta_data (set_tc_data Sample.reader_both [Sample.tc2; Sample.tc2]))
  ↔ num_tas Sample.tc2 = num_tas Sample.tc1.
Proof.
  apply (setitem_alignment Sample.reader_both
           (set_tc_data Sample.reader_both [Sample.tc2; Sample.tc2]) 0
           Sample.tc1 Sample.tc2).
  - repeat constructor.
  - reflexivity.
  - reflexivity.
Defined.

Lemma read_fragment_getitem_last_witness :
  ∃ tc, [Sample.tc2] = [tc] ∧ __getitem__ Sample.reader_both (-1) = inr tc.
Proof.
  apply (read_fragment_getitem_last Overlay.TriggerCandidate 2 Sample.reader
           Sample.reader_both "both" [Sample.tc2]).
  - vm_compute. discriminate.
  - vm_compute. reflexivity.
Defined.

Lemma read_fragment_keeps_witness :
  tc_data Sample.reader_one `prefix_of` tc_data Sample.reader_both
  ∧ ta_data Sample.reader_one `prefix_of` ta_data Sample.reader_both
  ∧ _h5_file (super Sample.reader_both) = _h5_file (super Sample.reader_one)
  ∧ _verbosity (super Sample.reader_both) = _verbosity (super Sample.reader_one)
  ∧ (get_data_size (get_frag (_h5_file (super Sample.reader_one)) "two") ≠ 0 →
     _num_empty (super Sample.reader_both) = _num_empty (super Sample.reader_one)).
Proof.
  apply (read_fragment_keeps Overlay.TriggerCandidate 1 Sample.reader_one
           Sample.reader_both "two").
  left. exists [Sample.tc2]. vm_compute. reflexivity.
Defined.

Lemma scan_stuck_witness :
  scan Faulty.TriggerCandidate_stuck 1000 Sample.fragment1 Sample.reader 0 None = OutOfFuel.
Proof.
  refine (scan_stuck Faulty.TriggerCandidate_stuck Sample.fragment1 0 _ _ _
            1000 Sample.reader None).
  - vm_compute. lia.
  - reflexivity.
  - vm_compute. lia.
Defined.

Lemma read_fragment_count_witness :
  length (tc_data Sample.reader_both)
  ≤ length (tc_data Sample.reader)
    + get_data_size (get_frag (_h5_file (super Sample.reader)) "both").
Proof.
  apply (read_fragment_count Overlay.TriggerCandidate 2 Sample.reader
           Sample.reader_both "both").
  - apply Overlay_progresses.
  - left. exists [Sample.tc2]. vm_compute. reflexivity.
Defined.

Lemma find_save_name_result_witness :
  event_display.find_save_name
    (λ name, String.eqb name "Run1-Subrun0002-TriggerRecord3.pdf") 5 1 2 3 false
  = Some (event_display.save_name_of 1 2 3 +:+ "-zoom").
Proof.
  refine (proj2 (find_save_name_result
                   (λ name, String.eqb name "Run1-Subrun0002-TriggerRecord3.pdf")
                   1 2 3 false) _ _ _ 5 _).
  - reflexivity.
  - vm_compute. reflexivity.
  - vm_compute. reflexivity.
  - lia.
Defined.

Lemma find_save_name_never_ends_witness :
  event_display.find_save_name (λ _, true) 1000 1 2 3 false = None.
Proof.
  refine (find_save_name_never_ends (λ _, true) 1 2 3 _ _ 1000); reflexivity.
Defined.

Lemma find_save_name_fresh_witness :
  ("Run1-Subrun0002-TriggerRecord3-zoom" = event_display.save_name_of 1 2 3
   ∨ "Run1-Subrun0002-TriggerRecord3-zoom" = event_display.save_name_of 1 2 3 +:+ "-zoom")
  ∧ (false = false →
     String.eqb ("Run1-Subrun0002-TriggerRecord3-zoom" +:+ ".pdf")
       "Run1-Subrun0002-TriggerRecord3.pdf" = false).
Proof.
  apply (find_save_name_fresh
           (λ name, String.eqb name "Run1-Subrun0002-TriggerRecord3.pdf")
           1 1 2 3 false "Run1-Subrun0002-TriggerRecord3-zoom").
  vm_compute. reflexivity.
Defined.

Lemma select_file_paths_out_of_range_witness :
  event_display.select_file_paths
    ["/data/np04hd_raw_run028676_0012_dataflow0.hdf5"] 1028676 12 = [].
Proof.
  apply (select_file_paths_out_of_range
           ["/data/np04hd_raw_run028676_0012_dataflow0.hdf5"] 1028676 12).
  lia.
Defined.

Lemma filtered_trg_records_split_witness :
  event_display.filtered_trg_records "run028676_0012_dataflow0" [1; 2; 3; 4]%Z
    `sublist_of` [1; 2; 3; 4]%Z
  ∧ event_display.filtered_trg_records "run028676_0012_dataflow1" [1; 2; 3; 4]%Z
    `sublist_of` [1; 2; 3; 4]%Z
  ∧ (∀ trgID,
       trgID ∈ event_display.filtered_trg_records "run028676_0012_dataflow0" [1; 2; 3; 4]%Z
       ↔ trgID ∈ [1; 2; 3; 4]%Z ∧ (trgID mod 2 = 0)%Z)
  ∧ (∀ trgID,
       trgID ∈ event_display.filtered_trg_records "run028676_0012_dataflow1" [1; 2; 3; 4]%Z
       ↔ trgID ∈ [1; 2; 3; 4]%Z ∧ (trgID mod 2 = 1)%Z)
  ∧ event_display.filtered_trg_records "run028676_0012_dataflow0" [1; 2; 3; 4]%Z
    ++ event_display.filtered_trg_records "run028676_0012_dataflow1" [1; 2; 3; 4]%Z
    ≡ₚ [1; 2; 3; 4]%Z.
Proof.
  apply (filtered_trg_records_split
           "run028676_0012_dataflow0" "run028676_0012_dataflow1" [1; 2; 3; 4]%Z).
  - vm_compute. reflexivity.
  - vm_compute. reflexivity.
Defined.

(** ** Names of distinct trigger records *)

Lemma format_d_inj (a b : Z) : event_display.format_d a = event_display.format_d b → a = b.
Proof.
  unfold event_display.format_d. intros H.
  apply (f_equal NilZero.int_of_string) in H.
  assert (∀ z, NilZero.int_of_string (NilZero.string_of_int (Z.to_int z))
               = Some (Z.to_int z)) as Hisi.
  { intros z. apply NilZero.isi; destruct z; simpl; try discriminate;
      intros [= Hnil]; exact (DecimalPos.Unsigned.to_uint_nonnil _ Hnil). }
  rewrite !Hisi in H. injection H as H. apply DecimalZ.to_int_inj. exact H.
Qed.

(** X20: for one run and subrun, two trigger records get the same save name
    only if they are the same record. *)
Theorem save_name_of_inj (run_id subrun_id trg_record_id trg_record_id' : Z) :
  event_display.save_name_of run_id subrun_id trg_record_id
  = event_display.save_name_of run_id subrun_id trg_record_id' →
  trg_record_id = trg_record_id'.
Proof.
  unfold event_display.save_name_of. intros H.
  repeat apply String.app_inj in H.
  apply format_d_inj. exact H.
Qed.

Lemma save_name_of_inj_witness : 7%Z = 7%Z.
Proof.
  apply (save_name_of_inj 28676 12 7 7). reflexivity.
Defined.

(** ** Rows already read *)

(** X21: however a call of [read_fragment] ends, a key from 0 up to the
    former length minus one still reads the row it read before the call. *)
Theorem read_fragment_getitem_stable
    (new_TriggerCandidate : list byte → trgdataformats.TriggerCandidate)
    (fuel : nat) (self self' : TCReader) (path : string) (key : Z) :
  (∃ value, read_fragment new_TriggerCandidate fuel self path = Return self' value)
  ∨ (∃ e, read_fragment new_TriggerCandidate fuel self path = Raise self' e) →
  (0 ≤ key < Z.of_nat (__len__ self))%Z →
  __getitem__ self' key = __getitem__ self key.
Proof.
  intros Hend Hkey.
  assert (∃ tcs, tc_data self' = tc_data self ++ tcs) as [tcs Htcs].
  { revert Hend. rewrite read_fragment_decoded.
    destruct (_ =? 0).
    - intros [[value [= <- _]]|[e [=]]]. exists []. simpl. rewrite app_nil_r. reflexivity.
    - destruct (decoded _ _ _ _) as [[tcs tas] [j|e'|]].
      + destruct (last tcs).
        * intros [[value [= <- _]]|[e [=]]]. eauto.
        * intros [[value [=]]|[e [= <- _]]]. eauto.
      + intros [[value [=]]|[e [= <- _]]]. eauto.
      + intros [[value [=]]|[e [=]]]. }
  unfold __getitem__, __len__ in *. rewrite Htcs, length_app.
  assert (np_index (length (tc_data self)) key = Some (Z.to_nat key)) as ->
    by (apply np_index_Some; left; split; [lia|reflexivity]).
  assert (np_index (length (tc_data self) + length tcs) key = Some (Z.to_nat key)) as ->
    by (apply np_index_Some; left; split; [lia|reflexivity]).
  rewrite lookup_app_l by lia. reflexivity.
Qed.

Lemma read_fragment_getitem_stable_witness :
  __getitem__ Sample.reader_both 0 = __getitem__ Sample.reader_one 0.
Proof.
  apply (read_fragment_getitem_stable Overlay.TriggerCandidate 1 Sample.reader_one
           Sample.reader_both "two" 0).
  - left. exists [Sample.tc2]. vm_compute. reflexivity.
  - vm_compute. split; [discriminate|reflexivity].
Defined.

(** ** The reader when NumPy may refuse an array: its properties *)

Section FiniteMemoryFacts.

Variable new_TriggerCandidate : list byte → trgdataformats.TriggerCandidate.
Variable np_zeros_raises : N → option exn.

Local Abbreviation fm_scan_body := (FiniteMemory.scan_body new_TriggerCandidate np_zeros_raises).
Local Abbreviation fm_scan := (FiniteMemory.scan new_TriggerCandidate np_zeros_raises).
Local Abbreviation fm_read_fragment :=
  (FiniteMemory.read_fragment new_TriggerCandidate np_zeros_raises).
Local Abbreviation fm_decoded := (FiniteMemory.decoded new_TriggerCandidate np_zeros_raises).
Local Abbreviation fm_candidates := (FiniteMemory.candidates new_TriggerCandidate).

Lemma fm_scan_body_eq (fragment : Fragment) (self : TCReader) (byte_idx : nat) :
  let tc_datum := new_TriggerCandidate (get_data fragment byte_idx) in
  let tc := np_tc_datum_of tc_datum in
  fm_scan_body fragment self byte_idx =
    match np_zeros_raises (num_tas tc) with
    | Some e => Abort (extend self [tc] []) e
    | None =>
        match store_tas (np_zeros (num_tas tc)) 0 (trgdataformats.inputs tc_datum) with
        | inl e => Abort (extend self [tc] []) e
        | inr group =>
            Next (extend self [tc] [group]) (byte_idx + trgdataformats.sizeof tc_datum) tc
        end
    end.
Proof.
  intros tc_datum tc. unfold FiniteMemory.scan_body. fold tc_datum. fold tc.
  destruct (np_zeros_raises (num_tas tc));
    [|destruct (store_tas _ _ _)]; unfold extend, set_ta_data, set_tc_data; simpl;
    rewrite ?app_nil_r; reflexivity.
Qed.

Lemma fm_scan_decoded (fragment : Fragment) (fuel : nat) :
  ∀ (self : TCReader) (byte_idx : nat) (np_tc_datum : option tc_dt),
    fm_scan fuel fragment self byte_idx np_tc_datum =
      match fm_decoded fuel fragment byte_idx with
      | (tcs, tas, Done byte_idx') =>
          Return (extend self tcs tas)
                 (byte_idx', match last tcs with Some tc => Some tc | None => np_tc_datum end)
      | (tcs, tas, Failed e) => Raise (extend self tcs tas) e
      | (_, _, Unfinished) => OutOfFuel
      end.
Proof.
  induction fuel as [|fuel IH]; intros self byte_idx np_tc_datum;
    cbn [FiniteMemory.scan FiniteMemory.decoded].
  - destruct (byte_idx <? get_data_size fragment); [reflexivity|].
    rewrite extend_nil. reflexivity.
  - destruct (byte_idx <? get_data_size fragment).
    + rewrite fm_scan_body_eq. cbv zeta.
      destruct (np_zeros_raises _) as [e|]; [reflexivity|].
      destruct (store_tas _ _ _) as [e|group]; [reflexivity|].
      rewrite IH.
      destruct (fm_decoded fuel fragment _) as [[tcs tas] [j|e|]]; [| |reflexivity].
      * rewrite extend_extend. simpl. rewrite last_cons.
        destruct (last tcs); reflexivity.
      * rewrite extend_extend. reflexivity.
    + rewrite extend_nil. reflexivity.
Qed.

Lemma fm_decoded_nonempty (fragment : Fragment) (fuel byte_idx : nat) tcs tas e :
  byte_idx < get_data_size fragment →
  fm_decoded fuel fragment byte_idx = (tcs, tas, e) →
  e ≠ Unfinished →
  tcs ≠ [].
Proof.
  intros Hlt. apply Nat.ltb_lt in Hlt.
  destruct fuel as [|fuel]; cbn [FiniteMemory.decoded]; rewrite Hlt.
  - intros [= <- <- <-]. congruence.
  - cbv zeta. destruct (np_zeros_raises _); [intros [= <- <- <-]; discriminate|].
    destruct (store_tas _ _ _).
    + intros [= <- <- <-]. discriminate.
    + destruct (fm_decoded fuel fragment _) as [[tcs' tas'] e'].
      intros [= <- <- <-]. discriminate.
Qed.

Lemma fm_read_fragment_decoded (fuel : nat) (self : TCReader) (path : string) :
  let fragment := get_frag (_h5_file (super self)) path in
  fm_read_fragment fuel self path =
    if get_data_size fragment =? 0 then Return (incr_num_empty self) []
    else
      match fm_decoded fuel fragment 0 with
      | (tcs, tas, Done _) =>
          match last tcs with
          | Some tc => Return (extend self tcs tas) [tc]
          | None => Raise (extend self tcs tas) UnboundLocalError
          end
      | (tcs, tas, Failed e) => Raise (extend self tcs tas) e
      | (_, _, Unfinished) => OutOfFuel
      end.
Proof.
  intros fragment. unfold FiniteMemory.read_fragment. fold fragment.
  destruct (get_data_size fragment =? 0); [reflexivity|].
  rewrite fm_scan_decoded.
  destruct (fm_decoded fuel fragment 0) as [[tcs tas] [j|e|]]; try reflexivity.
  destruct (last tcs); reflexivity.
Qed.

(** A finished scan has appended, for each candidate the loop met, its row
    and its group. *)
Lemma fm_decoded_candidates (fragment : Fragment) (fuel : nat) :
  ∀ byte_idx tcs tas j,
    fm_decoded fuel fragment byte_idx = (tcs, tas, Done j) →
    tcs = np_tc_datum_of <$> fm_candidates fuel fragment byte_idx
    ∧ tas = np_ta_group <$> fm_candidates fuel fragment byte_idx
    ∧ ∀ fuel', fuel ≤ fuel' →
        fm_candidates fuel' fragment byte_idx = fm_candidates fuel fragment byte_idx.
Proof.
  induction fuel as [|fuel IH]; intros byte_idx tcs tas j;
    cbn [FiniteMemory.decoded FiniteMemory.candidates].
  - destruct (byte_idx <? _) eqn:Hlt; [discriminate|]. intros [= <- <- _].
    repeat split. intros [|fuel'] _; cbn [FiniteMemory.candidates]; rewrite Hlt; reflexivity.
  - destruct (byte_idx <? _) eqn:Hlt.
    + cbv zeta. destruct (np_zeros_raises _); [discriminate|].
      rewrite store_tas_zeros.
      destruct (decide _); [|discriminate].
      destruct (fm_decoded fuel fragment _) as [[tcs' tas'] e'] eqn:Hrest.
      intros [= <- <- ->]. apply IH in Hrest as (-> & -> & Hmore).
      repeat split. intros [|fuel'] Hle; [lia|].
      cbn [FiniteMemory.candidates]. rewrite Hlt. cbv zeta. rewrite Hmore by lia.
      reflexivity.
    + intros [= <- <- _].
      repeat split. intros [|fuel'] _; cbn [FiniteMemory.candidates]; rewrite Hlt; reflexivity.
Qed.

Lemma fm_decoded_aligned (fragment : Fragment) (fuel : nat) :
  ∀ byte_idx tcs tas j,
    fm_decoded fuel fragment byte_idx = (tcs, tas, Done j) →
    aligned tcs tas.
Proof.
  induction fuel as [|fuel IH]; intros byte_idx tcs tas j; cbn [FiniteMemory.decoded].
  - destruct (byte_idx <? _); intros [= <- <-]; constructor.
  - destruct (byte_idx <? _); [|intros [= <- <-]; constructor].
    cbv zeta. destruct (np_zeros_raises _); [discriminate|].
    destruct (store_tas _ _ _) as [e|group] eqn:Hstore; [discriminate|].
    destruct (fm_decoded fuel fragment _) as [[tcs' tas'] e'] eqn:Hrest.
    intros [= <- <- ->]. constructor; [|exact (IH _ _ _ _ Hrest)].
    apply store_tas_length in Hstore. rewrite Hstore.
    unfold np_zeros. rewrite length_replicate. apply N2Nat.id.
Qed.


(** With progress, arrays handed out and stores in range, a scan with fuel
    for the bytes left runs to its end. *)
Lemma fm_decoded_done (fragment : Fragment) (fuel : nat) :
  progresses new_TriggerCandidate fragment →
  FiniteMemory.stores new_TriggerCandidate np_zeros_raises fragment →
  ∀ byte_idx,
    visited new_TriggerCandidate fragment byte_idx →
    get_data_size fragment - byte_idx ≤ fuel →
    ∃ tcs tas j, fm_decoded fuel fragment byte_idx = (tcs, tas, Done j).
Proof.
  intros Hp Hs. induction fuel as [|fuel IH]; intros byte_idx Hvis Hfuel;
    cbn [FiniteMemory.decoded].
  - destruct (byte_idx <? _) eqn:Hlt; [|eauto].
    apply Nat.ltb_lt in Hlt. lia.
  - destruct (byte_idx <? _) eqn:Hlt; [|eauto].
    apply Nat.ltb_lt in Hlt. cbv zeta.
    destruct (Hs byte_idx Hvis Hlt) as [Halloc Hcount].
    pose proof (Hp byte_idx Hvis Hlt) as Hpos.
    change (num_tas (np_tc_datum_of (new_TriggerCandidate (get_data fragment byte_idx))))
      with (trgdataformats.n_inputs (new_TriggerCandidate (get_data fragment byte_idx))).
    rewrite Halloc, store_tas_zeros. rewrite decide_True by exact Hcount.
    destruct (IH _ (visited_next _ _ _ Hvis Hlt)) as (tcs & tas & j & ->); [lia|].
    eauto.
Qed.

(** C2, as the reader behaves: after [__init__], after each call of
    [read_fragment] that returns, and after [clear_data], [tc_data] and
    [ta_data] have the same length, and the group at each index is as long
    as the candidate at that index declares. *)
Theorem reachable_returning_aligned (self : TCReader) :
  FiniteMemory.reachable new_TriggerCandidate np_zeros_raises self →
  length (tc_data self) = length (ta_data self)
  ∧ ∀ i tc group,
      tc_data self !! i = Some tc →
      ta_data self !! i = Some group →
      N.of_nat (length group) = num_tas tc.
Proof.
  intros Hreach.
  assert (aligned (tc_data self) (ta_data self)) as Hal.
  { induction Hreach as [h5 v|self self' fuel path value _ IH Hread|self _ _].
    - constructor.
    - revert Hread. rewrite fm_read_fragment_decoded.
      destruct (_ =? 0); [intros [= <- _]; exact IH|].
      destruct (fm_decoded _ _ _) as [[tcs tas] [j|e|]] eqn:Hdec; try discriminate.
      destruct (last tcs); [|discriminate]. intros [= <- _]. simpl.
      apply Forall2_app; [exact IH|]. eapply fm_decoded_aligned; eauto.
    - constructor. }
  split.
  - eapply Forall2_length; eauto.
  - intros i tc group Htc Hta.
    eapply Forall2_lookup_lr in Hal; eauto.
Qed.

(** C10: on an empty fragment [read_fragment] returns the empty array.  On
    a fragment that is not empty, whenever it returns, it has appended the
    row of each candidate the loop met in the fragment, in order, and the
    array it returns holds one row, that of the last of them (more fuel
    would meet no further candidate); and it does return, with fuel for one
    record per byte, when the records report sizes that are not zero, NumPy
    hands out their arrays and they yield no activity beyond their count. *)
Theorem read_fragment_returns_last_decoded (fuel : nat) (self : TCReader) (path : string) :
  let fragment := get_frag (_h5_file (super self)) path in
  (get_data_size fragment = 0 →
     fm_read_fragment fuel self path = Return (incr_num_empty self) [])
  ∧ (get_data_size fragment ≠ 0 →
     (∀ self' value,
        fm_read_fragment fuel self path = Return self' value →
        ∃ tc_datums tc_datum,
          (∀ fuel', fuel ≤ fuel' →
             fm_candidates fuel' fragment 0 = tc_datums ++ [tc_datum])
          ∧ tc_data self'
            = tc_data self ++ (np_tc_datum_of <$> tc_datums) ++ [np_tc_datum_of tc_datum]
          ∧ value = [np_tc_datum_of tc_datum])
     ∧ (progresses new_TriggerCandidate fragment →
        FiniteMemory.stores new_TriggerCandidate np_zeros_raises fragment →
        get_data_size fragment ≤ fuel →
        ∃ self' tc, fm_read_fragment fuel self path = Return self' [tc])).
Proof.
  intros fragment. split.
  - intros Hsize. unfold FiniteMemory.read_fragment. fold fragment.
    rewrite Hsize. reflexivity.
  - intros Hsize. rewrite fm_read_fragment_decoded. fold fragment.
    apply Nat.eqb_neq in Hsize. rewrite Hsize. apply Nat.eqb_neq in Hsize.
    destruct (fm_decoded fuel fragment 0) as [[tcs tas] e] eqn:Hdec.
    split.
    + intros self' value. destruct e as [j|e|]; try discriminate.
      destruct (last tcs) as [tc|] eqn:Hlast; [|discriminate].
      intros [= <- <-].
      apply fm_decoded_candidates in Hdec as (Htcs & _ & Hmore).
      rewrite Htcs, fmap_last in Hlast.
      destruct (last (fm_candidates fuel fragment 0)) as [tc_datum|] eqn:Hlast';
        [|discriminate].
      injection Hlast as <-.
      apply last_Some in Hlast' as [tc_datums Hcand].
      exists tc_datums, tc_datum. split; [|split].
      * intros fuel' Hle. rewrite Hmore by exact Hle. exact Hcand.
      * simpl. rewrite Htcs, Hcand, fmap_app. reflexivity.
      * reflexivity.
    + intros Hp Hs Hfuel.
      destruct (fm_decoded_done fragment fuel Hp Hs 0 (visited_first _ _))
        as (tcs' & tas' & j & Hdone); [lia|].
      rewrite Hdec in Hdone. injection Hdone as <- <- ->.
      destruct (last tcs) as [tc|] eqn:Hlast; [eauto|].
      apply last_None in Hlast. exfalso.
      eapply fm_decoded_nonempty; [|exact Hdec|discriminate|exact Hlast]. lia.
Qed.


End FiniteMemoryFacts.

(** ** Run and subrun of a file path, in any script *)

Section UnicodePaths.

Import event_display_unicode.

Variable isdecimal : N → bool.
Variable decimal_value : N → Z.

Local Abbreviation u_re_digits := (re_digits isdecimal).
Local Abbreviation u_re_match_here := (re_match_here isdecimal).
Local Abbreviation u_re_search := (re_search isdecimal).
Local Abbreviation u_extract := (extract_run_subrun isdecimal).
Local Abbreviation u_at := (run_subrun_at isdecimal).
Local Abbreviation u_int := (int isdecimal decimal_value).
Local Abbreviation u_select := (select_file_paths isdecimal decimal_value).
Local Abbreviation u_select_loop := (select_file_paths_loop isdecimal decimal_value).
Local Abbreviation u_names := (names_run_subrun isdecimal decimal_value).

Lemma u_re_literal_spec (lit : str) :
  ∀ s rest, re_literal lit s = Some rest ↔ s = lit ++ rest.
Proof.
  induction lit as [|a lit IH]; intros s rest; cbn [re_literal app].
  - split; [intros [= ->]; reflexivity|intros ->; reflexivity].
  - destruct s as [|b s].
    + split; discriminate.
    + destruct (a =? b)%N eqn:Hab.
      * apply N.eqb_eq in Hab as ->. rewrite IH. split; congruence.
      * apply N.eqb_neq in Hab. split; [discriminate|]. intros [= ? _]. congruence.
Qed.

Lemma u_re_digits_spec (n : nat) :
  ∀ s ds rest,
    u_re_digits n s = Some (ds, rest)
    ↔ s = ds ++ rest ∧ length ds = n ∧ forallb isdecimal ds = true.
Proof.
  induction n as [|n IH]; intros s ds rest; cbn [re_digits].
  - split.
    + intros [= <- <-]. auto.
    + intros (-> & Hlen & _). destruct ds; [reflexivity|discriminate].
  - destruct s as [|c s].
    + split; [discriminate|]. intros (H & Hlen & _). destruct ds; discriminate.
    + split.
      * destruct (isdecimal c) eqn:Hc; [|discriminate].
        destruct (u_re_digits n s) as [[ds' rest']|] eqn:Hrec; [|discriminate].
        intros [= <- <-]. apply IH in Hrec as (-> & Hlen' & Hall').
        cbn [app length forallb]. rewrite Hc, Hall', Hlen'. auto.
      * intros (H & Hlen & Hall). destruct ds as [|d ds]; [discriminate|].
        cbn [app length forallb] in *. injection H as <- ->. injection Hlen as Hlen.
        apply andb_true_iff in Hall as [-> Hall].
        assert (u_re_digits n (ds ++ rest) = Some (ds, rest)) as ->
          by (apply IH; auto).
        reflexivity.
Qed.

Lemma u_re_match_here_spec (s run subrun : str) :
  u_re_match_here s = Some (run, subrun) ↔ ∃ post, u_at s [] run subrun post.
Proof.
  unfold re_match_here, run_subrun_at. split.
  - destruct (re_literal (code_points "run") s) as [s1|] eqn:H1; [|discriminate].
    destruct (u_re_digits 6 s1) as [[run' s2]|] eqn:H2; [|discriminate].
    destruct (re_literal (code_points "_") s2) as [s3|] eqn:H3; [|discriminate].
    destruct (u_re_digits 4 s3) as [[subrun' post]|] eqn:H4; [|discriminate].
    intros [= <- <-].
    apply u_re_literal_spec in H1, H3. apply u_re_digits_spec in H2, H4.
    destruct H2 as (-> & ? & ?), H4 as (-> & ? & ?). subst.
    exists post. auto.
  - intros (post & -> & Hlen & Hall & Hlen' & Hall').
    assert (re_literal (code_points "run")
              ([] ++ code_points "run" ++ run ++ code_points "_" ++ subrun ++ post)
            = Some (run ++ code_points "_" ++ subrun ++ post)) as ->
      by (apply u_re_literal_spec; reflexivity).
    assert (u_re_digits 6 (run ++ code_points "_" ++ subrun ++ post)
            = Some (run, code_points "_" ++ subrun ++ post)) as ->
      by (apply u_re_digits_spec; auto).
    assert (re_literal (code_points "_") (code_points "_" ++ subrun ++ post)
            = Some (subrun ++ post)) as ->
      by (apply u_re_literal_spec; reflexivity).
    assert (u_re_digits 4 (subrun ++ post) = Some (subrun, post)) as ->
      by (apply u_re_digits_spec; auto).
    reflexivity.
Qed.

Lemma u_at_cons (c : N) (s pre run subrun post : str) :
  u_at (c :: s) (c :: pre) run subrun post ↔ u_at s pre run subrun post.
Proof.
  unfold run_subrun_at. cbn [app]. split.
  - intros (H & ?). injection H as H. auto.
  - intros (-> & ?). auto.
Qed.

Lemma u_at_head (c : N) (s pre run subrun post : str) :
  u_at (c :: s) pre run subrun post →
  pre = [] ∨ ∃ pre', pre = c :: pre' ∧ u_at s pre' run subrun post.
Proof.
  destruct pre as [|c' pre']; [auto|]. intros H. right.
  assert (c' = c) as -> by (destruct H as [H _]; cbn [app] in H; congruence).
  exists pre'. split; [reflexivity|].
  exact (proj1 (u_at_cons c s pre' run subrun post) H).
Qed.

Lemma u_re_search_Some (s : str) :
  ∀ run subrun,
    u_re_search s = Some (run, subrun) →
    ∃ pre post,
      u_at s pre run subrun post
      ∧ ∀ pre' run' subrun' post',
          u_at s pre' run' subrun' post' → length pre ≤ length pre'.
Proof.
  induction s as [|c s IH]; intros run subrun; cbn [re_search].
  - destruct (u_re_match_here []) as [[r sr]|] eqn:Hhere; [|discriminate].
    intros [= -> ->]. apply u_re_match_here_spec in Hhere as [post Hat].
    exists [], post. split; [exact Hat|]. intros; simpl; lia.
  - destruct (u_re_match_here (c :: s)) as [[r sr]|] eqn:Hhere.
    + intros [= -> ->]. apply u_re_match_here_spec in Hhere as [post Hat].
      exists [], post. split; [exact Hat|]. intros; simpl; lia.
    + intros Hrec. apply IH in Hrec as (pre & post & Hat & Hleft).
      exists (c :: pre), post. split; [apply u_at_cons; exact Hat|].
      intros pre' run' subrun' post' Hat'.
      pose proof (u_at_head _ _ _ _ _ _ Hat') as [-> | (pre'' & -> & Hat'')].
      * assert (u_re_match_here (c :: s) = Some (run', subrun')) as Hyes
          by (apply (proj2 (u_re_match_here_spec _ _ _)); eauto).
        congruence.
      * simpl. apply Hleft in Hat''. lia.
Qed.

Lemma u_re_search_None (s : str) :
  u_re_search s = None →
  ∀ pre run subrun post, ¬ u_at s pre run subrun post.
Proof.
  induction s as [|c s IH]; cbn [re_search].
  - destruct (u_re_match_here []) as [[r sr]|] eqn:Hhere; [discriminate|].
    intros _ pre run subrun post Hat.
    destruct pre as [|c' pre]; [|destruct Hat as [Hat _]; discriminate].
    assert (u_re_match_here [] = Some (run, subrun)) as Hyes
      by (apply (proj2 (u_re_match_here_spec _ _ _)); eauto).
    congruence.
  - destruct (u_re_match_here (c :: s)) as [[r sr]|] eqn:Hhere; [discriminate|].
    intros Hrec pre run subrun post Hat.
    pose proof (u_at_head _ _ _ _ _ _ Hat) as [-> | (pre' & -> & Hat')].
    + assert (u_re_match_here (c :: s) = Some (run, subrun)) as Hyes
        by (apply (proj2 (u_re_match_here_spec _ _ _)); eauto).
      congruence.
    + eapply IH; eauto.
Qed.

(** X14: when [extract_run_subrun] returns a run and a subrun, the path
    reads, at some place, [run], the six decimal digits returned as run, an
    underscore and the four decimal digits returned as subrun; and that
    place is the leftmost at which the path reads such a text.  The digits
    are those of [\d]: decimal digits of any script. *)
Theorem extract_run_subrun_leftmost (file_path run subrun : str) :
  u_extract file_path = (Some run, Some subrun) →
  ∃ pre post,
    u_at file_path pre run subrun post
    ∧ ∀ pre' run' subrun' post',
        u_at file_path pre' run' subrun' post' → length pre ≤ length pre'.
Proof.
  unfold extract_run_subrun.
  destruct (u_re_search file_path) as [[r sr]|] eqn:Hsearch; [|discriminate].
  intros [= <- <-]. apply u_re_search_Some. exact Hsearch.
Qed.

(** X15: [extract_run_subrun] returns a run and a subrun exactly when the
    path reads, somewhere, [run], six decimal digits, an underscore and
    four decimal digits (of any script); exactly when it reads no such text
    it returns the pair of [None]. *)
Theorem extract_run_subrun_exactly (file_path : str) :
  ((∃ pre run subrun post, u_at file_path pre run subrun post)
   ↔ ∃ run subrun, u_extract file_path = (Some run, Some subrun))
  ∧ ((∀ pre run subrun post, ¬ u_at file_path pre run subrun post)
     ↔ u_extract file_path = (None, None)).
Proof.
  unfold extract_run_subrun.
  destruct (u_re_search file_path) as [[r sr]|] eqn:Hsearch.
  - apply u_re_search_Some in Hsearch as (pre & post & Hat & _). split; split.
    + eauto.
    + eauto.
    + intros Hnone. exfalso. eapply Hnone; eauto.
    + discriminate.
  - pose proof (u_re_search_None _ Hsearch) as Hnone. split; split.
    + intros (pre & run & subrun & post & Hat). exfalso. eapply Hnone; eauto.
    + intros (run & subrun & [=]).
    + reflexivity.
    + intros _. exact Hnone.
Qed.




End UnicodePaths.

(** ** These properties on samples *)

(** C2 fails as stated: the header of [fragment_huge] declares 2^63
    activities; [read_fragment] appends the candidate, NumPy then refuses
    the array, and the call raises with [tc_data] one longer than
    [ta_data]. *)
Lemma read_fragment_raise_counterexample :
  Corrupt.reader = __init__ Corrupt.h5_file 0
  ∧ FiniteMemory.read_fragment Overlay.TriggerCandidate Corrupt.np_zeros_raises
      1 Corrupt.reader "huge"
    = Raise (extend Corrupt.reader [Corrupt.tc_huge] []) ValueError
  ∧ length (tc_data (extend Corrupt.reader [Corrupt.tc_huge] [])) = 1
  ∧ length (ta_data (extend Corrupt.reader [Corrupt.tc_huge] [])) = 0.
Proof.
  split; [reflexivity|]. split; [lazy; reflexivity|]. split; reflexivity.
Qed.

Lemma reachable_returning_aligned_witness :
  length (tc_data Sample.reader_both) = length (ta_data Sample.reader_both)
  ∧ ∀ i tc group,
      tc_data Sample.reader_both !! i = Some tc →
      ta_data Sample.reader_both !! i = Some group →
      N.of_nat (length group) = num_tas tc.
Proof.
  apply (reachable_returning_aligned Overlay.TriggerCandidate Corrupt.np_zeros_raises
           Sample.reader_both).
  apply (FiniteMemory.reach_read Overlay.TriggerCandidate Corrupt.np_zeros_raises
           Sample.reader Sample.reader_both 2 "both" [Sample.tc2]).
  - apply FiniteMemory.reach_init.
  - vm_compute. reflexivity.
Defined.

Lemma read_fragment_returns_last_decoded_witness :
  (∃ tc_datums tc_datum,
     (∀ fuel', 2 ≤ fuel' →
        FiniteMemory.candidates Overlay.TriggerCandidate fuel' Sample.fragment12 0
        = tc_datums ++ [tc_datum])
     ∧ tc_data Sample.reader_both
       = tc_data Sample.reader ++ (np_tc_datum_of <$> tc_datums) ++ [np_tc_datum_of tc_datum]
     ∧ [Sample.tc2] = [np_tc_datum_of tc_datum])
  ∧ ∃ self' tc,
      FiniteMemory.read_fragment Overlay.TriggerCandidate (λ _, None) 304 Sample.reader "both"
      = Return self' [tc].
Proof.
  split.
  - refine (proj1 (proj2 (read_fragment_returns_last_decoded Overlay.TriggerCandidate
                             (λ _, None) 2 Sample.reader "both") _)
              Sample.reader_both [Sample.tc2] _).
    + vm_compute. discriminate.
    + vm_compute. reflexivity.
  - refine (proj2 (proj2 (read_fragment_returns_last_decoded Overlay.TriggerCandidate
                             (λ _, None) 304 Sample.reader "both") _) _ _ _).
    + vm_compute. discriminate.
    + apply Overlay_progresses.
    + intros byte_idx _ _. split; [reflexivity|apply Overlay_iteration_bounded].
    + vm_compute. lia.
Defined.


Lemma extract_run_subrun_leftmost_witness :
  ∃ pre post,
    event_display_unicode.run_subrun_at event_display_unicode.two_scripts
      event_display_unicode.arabic_path pre
      [1632; 1634; 1640; 1638; 1639; 1638]%N [1632; 1632; 1633; 1634]%N post
    ∧ ∀ pre' run' subrun' post',
        event_display_unicode.run_subrun_at event_display_unicode.two_scripts
          event_display_unicode.arabic_path pre' run' subrun' post' →
        length pre ≤ length pre'.
Proof.
  apply (extract_run_subrun_leftmost event_display_unicode.two_scripts
           event_display_unicode.arabic_path).
  vm_compute. reflexivity.
Defined.
